(** * The chunk-construction engine of [JSON_to_chunks.py]

    A shallow embedding of [JSONChunkProcessor]: the background builder,
    the budget allocation inside [create_chunks_from_entry], the
    boundary-aware splitter and the identifier generator, followed by the
    properties the specification states about them.

    Conventions.
    - A Python [str] is a [list ascii]; a character is a code point in
      U+0000..U+00FF, and the character classes below are Python's
      [str.isspace] and [str.isalnum] on that range.
    - Python integers are unbounded: positions, sizes and budgets are [Z]
      (slices accept negative indices, as in Python); the chunk counter,
      which starts at 0 and is only ever incremented, is an [N].
    - The engine object is a record; a method that mutates [self] returns
      the new record next to its result. *)

From Stdlib Require Import ZArith NArith Ascii String List Decimal DecimalN Sorted Lia.
From stdpp Require Import base list gmap strings.

Local Open Scope Z_scope.

Abbreviation str := (list ascii).

(** A string literal of the source, as a [str]. *)
Definition lit (s : string) : str := list_ascii_of_string s.

(** ** Python's built-in string operations *)
Module Py.

Definition len {A} (l : list A) : Z := Z.of_nat (length l).

Definition code (c : ascii) : N := N_of_ascii c.

(** [c.isspace()] on U+0000..U+00FF: TAB..CR, FS..US, space, NEL, NBSP. *)
Definition isspace (c : ascii) : bool :=
  let n := code c in
  ((9 <=? n) && (n <=? 13) || (28 <=? n) && (n <=? 32)
   || (n =? 133) || (n =? 160))%N.

(** [c.isdigit()] restricted to the ASCII digits (used only to read
    back what [fmt_d] printed). *)
Definition is_ascii_digit (c : ascii) : bool :=
  let n := code c in ((48 <=? n) && (n <=? 57))%N.

(** [c.isalnum()] on U+0000..U+00FF. *)
Definition isalnum (c : ascii) : bool :=
  let n := code c in
  ((48 <=? n) && (n <=? 57) || (65 <=? n) && (n <=? 90)
   || (97 <=? n) && (n <=? 122)
   || (n =? 170) || (n =? 178) || (n =? 179) || (n =? 181)
   || (n =? 185) || (n =? 186) || (188 <=? n) && (n <=? 190)
   || (192 <=? n) && (n <=? 214) || (216 <=? n) && (n <=? 246)
   || (248 <=? n) && (n <=? 255))%N.

Fixpoint lstrip (s : str) : str :=
  match s with
  | c :: s' => if isspace c then lstrip s' else s
  | [] => []
  end.

Definition rstrip (s : str) : str := rev (lstrip (rev s)).

(** [s.strip()] *)
Definition strip (s : str) : str := lstrip (rstrip s).

(** A slice bound, as Python normalises it for a sequence of length [n]:
    a negative bound counts from the end, and the result is clamped to
    [0..n]. *)
Definition norm_index (n i : Z) : Z :=
  if i <? 0 then Z.max 0 (i + n) else Z.min i n.

(** [l[lo:hi]] *)
Definition slice {A} (l : list A) (lo hi : Z) : list A :=
  let a := norm_index (len l) lo in
  let b := norm_index (len l) hi in
  take (Z.to_nat (b - a)) (drop (Z.to_nat a) l).

(** [l[lo:]] *)
Definition slice_from {A} (l : list A) (lo : Z) : list A :=
  drop (Z.to_nat (norm_index (len l) lo)) l.

(** [l[:hi]] *)
Definition slice_to {A} (l : list A) (hi : Z) : list A :=
  take (Z.to_nat (norm_index (len l) hi)) l.

(** [l[i]] for an index [0 <= i]; [None] stands for [IndexError]. The
    engine only indexes inside the string (lemma [search_in_range]). *)
Definition get (l : str) (i : Z) : option ascii :=
  if i <? 0 then None else l !! Z.to_nat i.

Fixpoint startswith (s p : str) : bool :=
  match p, s with
  | [], _ => true
  | c :: p', d :: s' => bool_decide (c = d) && startswith s' p'
  | _ :: _, [] => false
  end.

Definition endswith (s p : str) : bool := startswith (rev s) (rev p).

(** [p in s] for strings: [p] occurs as a substring of [s]. *)
Fixpoint contains (s p : str) : bool :=
  startswith s p ||
  match s with
  | [] => false
  | _ :: s' => contains s' p
  end.

(** [sep.join(parts)] *)
Fixpoint join (sep : str) (parts : list str) : str :=
  match parts with
  | [] => []
  | [p] => p
  | p :: ps => p ++ sep ++ join sep ps
  end.

(** [s.replace(a, b)] for one-character [a] and [b]. *)
Definition replace_char (a b : ascii) (s : str) : str :=
  map (fun c => if bool_decide (c = a) then b else c) s.

(** The components of [s.split(c)]. *)
Fixpoint split_on (c : ascii) (s : str) : list str :=
  match s with
  | [] => [[]]
  | d :: s' =>
      if bool_decide (d = c) then [] :: split_on c s'
      else match split_on c s' with
           | w :: ws => (d :: w) :: ws
           | [] => [[d]]
           end
  end.

(** [s.rfind(c)] for a character; [None] stands for -1. *)
Fixpoint rfind_char (c : ascii) (s : str) : option nat :=
  match s with
  | [] => None
  | d :: s' =>
      match rfind_char c s' with
      | Some i => Some (S i)
      | None => if bool_decide (d = c) then Some 0%nat else None
      end
  end.

(** [PurePosixPath(s).name]: the last component of the path, where empty
    components and ["."] components do not count. *)
Definition path_name (s : str) : str :=
  List.last (filter (fun w => w <> [] /\ w <> lit ".") (split_on "/"%char s)) [].

(** [PurePosixPath(s).stem]: the name without its last suffix; a dot in
    first or last position starts no suffix. *)
Definition path_stem (s : str) : str :=
  let name := path_name s in
  match rfind_char "."%char name with
  | Some i =>
      if bool_decide (0 < i < length name - 1)%nat then take i name else name
  | None => name
  end.

(** The decimal digits of a [Decimal.uint], most significant first. *)
Fixpoint digits_of_uint (d : Decimal.uint) : str :=
  match d with
  | Nil => []
  | D0 d => "0"%char :: digits_of_uint d
  | D1 d => "1"%char :: digits_of_uint d
  | D2 d => "2"%char :: digits_of_uint d
  | D3 d => "3"%char :: digits_of_uint d
  | D4 d => "4"%char :: digits_of_uint d
  | D5 d => "5"%char :: digits_of_uint d
  | D6 d => "6"%char :: digits_of_uint d
  | D7 d => "7"%char :: digits_of_uint d
  | D8 d => "8"%char :: digits_of_uint d
  | D9 d => "9"%char :: digits_of_uint d
  end.

(** [f"{n}"] / [f"{n:d}"] for a natural number. *)
Definition fmt_d (n : N) : str := digits_of_uint (N.to_uint n).

(** [f"{n:06d}"]: zero-padded on the left to at least six characters. *)
Definition fmt_06d (n : N) : str :=
  let s := fmt_d n in
  repeat "0"%char (6 - length s)%nat ++ s.

(** Reading a digit string back (not part of the engine; the inverse of
    [digits_of_uint] used to tell identifiers apart). *)
Fixpoint uint_of_digits (s : str) : Decimal.uint :=
  match s with
  | [] => Nil
  | c :: s' =>
      let d := uint_of_digits s' in
      match (code c - 48)%N with
      | 0 => D0 d | 1 => D1 d | 2 => D2 d | 3 => D3 d | 4 => D4 d
      | 5 => D5 d | 6 => D6 d | 7 => D7 d | 8 => D8 d | _ => D9 d
      end%N
  end.

End Py.

(** ** The data model *)

(** An input entry. [entry['content']] and [entry['metadata']] are
    required keys (a missing one is a [KeyError] for the whole document);
    the metadata keys are read with [.get], so [title] and [full_path] may
    be absent and [hierarchy] defaults to the empty list. *)
Record entry := Entry {
  content : str;
  title : option str;
  hierarchy : list str;
  full_path : option str
}.

(** The metadata of an emitted chunk, and the chunk. *)
Record chunk_metadata := ChunkMetadata {
  chunk_id : str;
  source_file : str;
  meta_full_path : str;
  chunk_size : Z;
  background_size : Z;
  content_size : Z
}.

Record chunk := Chunk {
  chunk_content : str;
  metadata : chunk_metadata
}.

(** The fields of a [JSONChunkProcessor] instance. *)
Record processor := Processor {
  chunk_size_cfg : Z;
  overlap_size : Z;
  max_background_size : Z;
  hierarchy_cache : gmap str str;
  global_chunk_counter : N
}.

(** [JSONChunkProcessor(chunk_size, overlap_size, max_background_size)]
    with the third argument given (the default, [int(chunk_size * 0.4)],
    is a floating-point product computed by the caller of this model). *)
Definition new_processor (cs ov mb : Z) : processor :=
  Processor cs ov mb ∅ 0.

Definition set_cache (p : processor) (c : gmap str str) : processor :=
  Processor (chunk_size_cfg p) (overlap_size p) (max_background_size p)
            c (global_chunk_counter p).

Definition set_counter (p : processor) (n : N) : processor :=
  Processor (chunk_size_cfg p) (overlap_size p) (max_background_size p)
            (hierarchy_cache p) n.

(** The fixed strings of the source. *)
Definition nl : ascii := "010"%char.
Definition BLANK_LINE : str := [nl; nl].
Definition BG_OPEN : str := lit "[BACKGROUND]" ++ [nl].
Definition BG_CLOSE : str := nl :: lit "[/BACKGROUND]".
Definition TRUNC_MARK : str := lit "[TRUNCATED] ".
Definition min_content_size : Z := 100.

(** ** [generate_chunk_id] *)

Definition clean_title (entry_title : str) : str :=
  let kept :=
    filter (fun c => Py.isalnum c = true \/ c ∈ lit " -_") entry_title in
  Py.slice_to (Py.replace_char " "%char "_"%char (Py.strip kept)) 30.

Definition chunk_id_of (counter : N) (source_filename entry_title : str)
    (chunk_index : nat) : str :=
  lit "chunk_" ++ Py.fmt_06d counter ++ lit "_"
    ++ Py.path_stem source_filename ++ lit "_"
    ++ clean_title entry_title ++ lit "_"
    ++ Py.fmt_d (N.of_nat chunk_index).

Definition generate_chunk_id (p : processor)
    (source_filename entry_title : str) (chunk_index : nat)
    : str * processor :=
  let counter := (global_chunk_counter p + 1)%N in
  (chunk_id_of counter source_filename entry_title chunk_index,
   set_counter p counter).

(** ** [build_hierarchical_background] *)

(** The inner [for other_entry in all_entries] loop: the first entry whose
    title is the ancestor title. *)
Definition find_entry (hierarchy_title : str) (all_entries : list entry)
    : option entry :=
  List.find (fun e => bool_decide (title e = Some hierarchy_title))
            all_entries.

(** One iteration of the outer loop over [hierarchy], on the pair of the
    cache and [background_parts]. *)
Definition collect_step (all_entries : list entry)
    (st : gmap str str * list str) (hierarchy_title : str)
    : gmap str str * list str :=
  let '(cache, parts) := st in
  match cache !! hierarchy_title with
  | Some cached => (cache, parts ++ [cached])
  | None =>
      match find_entry hierarchy_title all_entries with
      | Some other_entry =>
          let c := Py.strip (content other_entry) in
          (<[hierarchy_title := c]> cache, parts ++ [c])
      | None => (cache, parts)
      end
  end.

Definition collect_background (all_entries : list entry)
    (cache : gmap str str) (hier : list str)
    : gmap str str * list str :=
  fold_left (collect_step all_entries) hier (cache, []).

(** Lines 91-108: join, truncate from the front, wrap in the labels. *)
Definition wrap_background (max_bg : Z) (background_parts : list str)
    : str * bool :=
  let raw_background := Py.join BLANK_LINE background_parts in
  match raw_background with
  | [] => ([], false)
  | _ =>
      if Py.len raw_background >? max_bg then
        let truncation_point :=
          Py.len raw_background - max_bg + Py.len TRUNC_MARK in
        (BG_OPEN ++ (TRUNC_MARK ++ Py.slice_from raw_background truncation_point)
           ++ BG_CLOSE, true)
      else (BG_OPEN ++ raw_background ++ BG_CLOSE, false)
  end.

Definition build_hierarchical_background (p : processor) (e : entry)
    (all_entries : list entry) : (str * bool) * processor :=
  let '(cache, parts) :=
    collect_background all_entries (hierarchy_cache p) (hierarchy e) in
  (wrap_background (max_background_size p) parts, set_cache p cache).

(** ** [split_content_with_overlap] *)

(** [for i in range(hi, lo, -1): if test(i): ...; break]: the first index
    that passes [test], scanning down from [hi] to [lo + 1]. *)
Fixpoint scan_down (test : Z -> bool) (n : nat) (i : Z) : option Z :=
  match n with
  | O => None
  | S n' => if test i then Some i else scan_down test n' (i - 1)
  end.

Definition rsearch (test : Z -> bool) (hi lo : Z) : option Z :=
  scan_down test (Z.to_nat (hi - lo)) hi.

(** [P(content[i])]; an index outside the string satisfies nothing. *)
Definition char_at (P : ascii -> bool) (content : str) (i : Z) : bool :=
  match Py.get content i with
  | Some c => P c
  | None => false
  end.

(** The four tests of the boundary search, in priority order. *)
Definition is_sentence_end (content : str) (i : Z) : bool :=
  char_at (fun c => bool_decide (c ∈ lit ".!?")) content i
  && ((i + 1 >=? Py.len content) || char_at Py.isspace content (i + 1)).

Definition is_paragraph_break (content : str) (i : Z) : bool :=
  bool_decide (Py.slice content i (i + 2) = BLANK_LINE).

Definition is_newline (content : str) (i : Z) : bool :=
  char_at (fun c => bool_decide (c = nl)) content i.

Definition is_space (content : str) (i : Z) : bool :=
  char_at Py.isspace content i.

(** Lines 135-167: the break point for a tentative [end] that lies before
    the end of the content. Each later search runs only while
    [break_point == end] still holds. *)
Definition find_break_point (content : str) (start e : Z) : Z :=
  let break_point := e in
  let break_point :=
    match rsearch (is_sentence_end content) (e - 1) (Z.max start (e - 200)) with
    | Some i => i + 1
    | None => break_point
    end in
  let break_point :=
    if break_point =? e then
      match rsearch (is_paragraph_break content) (e - 1) (Z.max start (e - 200)) with
      | Some i => i + 2
      | None => break_point
      end
    else break_point in
  let break_point :=
    if break_point =? e then
      match rsearch (is_newline content) (e - 1) (Z.max start (e - 100)) with
      | Some i => i + 1
      | None => break_point
      end
    else break_point in
  let break_point :=
    if break_point =? e then
      match rsearch (is_space content) (e - 1) (Z.max start (e - 50)) with
      | Some i => i + 1
      | None => break_point
      end
    else break_point in
  break_point.

(** Lines 129-167: the [end] of the slice that starts at [start]. *)
Definition cut_end (content : str) (available_chars start : Z) : Z :=
  let e := start + available_chars in
  if e <? Py.len content then find_break_point content start e else e.

(** Line 179. *)
Definition next_start (overlap start e : Z) : Z :=
  Z.max (start + 1) (e - overlap).

(** Lines 170-172: append the trimmed slice unless it is empty. *)
Definition add_chunk (chunks : list str) (chunk : str) : list str :=
  match chunk with
  | [] => chunks
  | _ => chunks ++ [chunk]
  end.

(** The [while start < len(content)] loop. One unit of [fuel] is spent
    per execution of the loop body; [None] means the fuel ran out. *)
Fixpoint split_loop (fuel : nat) (content : str) (available_chars overlap : Z)
    (start : Z) (chunks : list str) : option (list str) :=
  if start <? Py.len content then
    match fuel with
    | O => None
    | S fuel' =>
        let e := cut_end content available_chars start in
        let chunks := add_chunk chunks (Py.strip (Py.slice content start e)) in
        if e >=? Py.len content then Some chunks
        else split_loop fuel' content available_chars overlap
               (next_start overlap start e) chunks
    end
  else Some chunks.

(** The slices [(start, end)] the loop takes, one per execution of its
    body (a trace of the same loop, for stating coverage and progress). *)
Fixpoint split_windows (fuel : nat) (content : str) (available_chars overlap : Z)
    (start : Z) : list (Z * Z) :=
  if start <? Py.len content then
    match fuel with
    | O => []
    | S fuel' =>
        let e := cut_end content available_chars start in
        (start, e) ::
        (if e >=? Py.len content then []
         else split_windows fuel' content available_chars overlap
                (next_start overlap start e))
    end
  else [].

(** [split_content_with_overlap]: the loop is given [len(content)] units
    of fuel, which it never exhausts (lemma [split_loop_enough_fuel]). *)
Definition split_content_with_overlap (p : processor) (content : str)
    (available_chars : Z) : list str :=
  if Py.len content <=? available_chars then [content]
  else default [] (split_loop (length content) content available_chars
                     (overlap_size p) 0 []).

(** ** [create_chunks_from_entry] *)

(** Lines 213-229: the second truncation of a background that leaves less
    than [min_content_size] characters for the content. *)
Definition shrink_background (max_allowed_background : Z) (background : str)
    : str :=
  if Py.startswith background BG_OPEN && Py.endswith background BG_CLOSE then
    let inner_content := Py.slice background 13 (-14) in
    if Py.contains inner_content TRUNC_MARK then
      let truncated_inner := Py.slice_from inner_content 12 in
      let new_size := max_allowed_background - 30 in
      if new_size >? 0 then
        BG_OPEN ++ (TRUNC_MARK ++ Py.slice_from truncated_inner (- new_size))
          ++ BG_CLOSE
      else background
    else
      let new_size := max_allowed_background - 28 in
      if new_size >? 0 then
        BG_OPEN ++ (TRUNC_MARK ++ Py.slice_from inner_content (- new_size))
          ++ BG_CLOSE
      else []
  else background.

(** The values the budget allocation (lines 198-236) leaves in the local
    variables of [create_chunks_from_entry]. *)
Record budget := Budget {
  background : str;
  background_length : Z;
  was_truncated : bool;
  available_chars : Z
}.

Definition allocate_budget (cs : Z) (bg : str * bool) : budget :=
  let '(background, was_truncated) := bg in
  let background_length := Py.len background in
  let available_chars := cs - background_length in
  if available_chars <? min_content_size then
    let '(background, background_length, was_truncated) :=
      if background_length >? 0 then
        let max_allowed_background := cs - min_content_size in
        if max_allowed_background >? 0 then
          let background :=
            shrink_background max_allowed_background background in
          (background, Py.len background, true)
        else ([], 0, was_truncated)
      else (background, background_length, was_truncated) in
    let available_chars := cs - background_length in
    Budget background background_length was_truncated
           (Z.max available_chars min_content_size)
  else Budget background background_length was_truncated available_chars.

(** Lines 248-273: the loop over [enumerate(content_chunks)], from index
    [i] on. *)
Fixpoint assemble_chunks (p : processor) (b : budget)
    (source_filename current_title fullpath : str) (i : nat)
    (content_chunks : list str) : list chunk * processor :=
  match content_chunks with
  | [] => ([], p)
  | content_chunk :: rest =>
      let full_content :=
        match background b with
        | [] => content_chunk
        | _ => background b ++ BLANK_LINE ++ content_chunk
        end in
      let '(cid, p) :=
        generate_chunk_id p source_filename current_title i in
      let c :=
        Chunk full_content
          (ChunkMetadata cid source_filename fullpath
             (Py.len full_content) (background_length b)
             (Py.len content_chunk)) in
      let '(cs, p) :=
        assemble_chunks p b source_filename current_title fullpath (S i) rest in
      (c :: cs, p)
  end.

(** The budget [create_chunks_from_entry] computes for an entry, and the
    engine after the background was built. *)
Definition entry_budget (p : processor) (e : entry) (all_entries : list entry)
    : budget * processor :=
  let '(bg, p) := build_hierarchical_background p e all_entries in
  (allocate_budget (chunk_size_cfg p) bg, p).

Definition create_chunks_from_entry (p : processor) (e : entry)
    (all_entries : list entry) (source_filename : str)
    : list chunk * processor :=
  let '(b, p) := entry_budget p e all_entries in
  let content_chunks :=
    split_content_with_overlap p (content e) (available_chars b) in
  let current_title := default (lit "Unknown") (title e) in
  let fullpath := default current_title (full_path e) in
  assemble_chunks p b source_filename current_title fullpath 0 content_chunks.

(** ** [process_json_file] and [process_all_json_files] *)

(** [os.path.basename]: what follows the last slash. *)
Definition basename (path : str) : str :=
  List.last (Py.split_on "/"%char path) [].

(** The [for i, entry in enumerate(entries)] loop. *)
Fixpoint process_entries (p : processor) (todo all_entries : list entry)
    (source_filename : str) : list chunk * processor :=
  match todo with
  | [] => ([], p)
  | e :: rest =>
      let '(chunks, p) :=
        create_chunks_from_entry p e all_entries source_filename in
      let '(more, p) := process_entries p rest all_entries source_filename in
      (chunks ++ more, p)
  end.

(** [process_json_file] on a file whose JSON content is [entries]: the
    hierarchy cache is reset, the counter is kept. The result is
    [all_chunks], the list written to the output file. *)
Definition process_json_file (p : processor) (input_file : str)
    (entries : list entry) : list chunk * processor :=
  let p := set_cache p ∅ in
  process_entries p entries entries (basename input_file).

(** [process_all_json_files] on the documents found, in order: one engine
    instance processes them all. *)
Fixpoint process_all_json_files (p : processor)
    (docs : list (str * list entry)) : list (list chunk) * processor :=
  match docs with
  | [] => ([], p)
  | (input_file, entries) :: rest =>
      let '(chunks, p) := process_json_file p input_file entries in
      let '(more, p) := process_all_json_files p rest in
      (chunks :: more, p)
  end.

(** ** Reading the counter back from an identifier *)

(** The longest prefix of ASCII digits. *)
Fixpoint take_digits (s : str) : str :=
  match s with
  | c :: s' => if Py.is_ascii_digit c then c :: take_digits s' else []
  | [] => []
  end.

(** The number printed after the ["chunk_"] prefix of an identifier. *)
Definition read_counter (id : str) : N :=
  N.of_uint (Py.uint_of_digits (take_digits (drop 6 id))).

(** The counter values [c + 1, ..., c + k]. *)
Definition counters_from (c : N) (k : nat) : list N :=
  map (fun i => (c + 1 + N.of_nat i)%N) (seq 0 k).

Definition id_of (c : chunk) : str := chunk_id (metadata c).

(** ** Notions used to state the properties *)

(** [emits p chunks p']: going from engine [p] to [p'], the chunks
    [chunks] were produced, carrying the next [length chunks] counter
    values in order. *)
Definition emits (p : processor) (chunks : list chunk) (p' : processor) : Prop :=
  map (fun c => read_counter (id_of c)) chunks
    = counters_from (global_chunk_counter p) (length chunks)
  /\ global_chunk_counter p'
     = (global_chunk_counter p + N.of_nat (length chunks))%N.

(** The ancestor bodies collected for an entry, and their join. *)
Definition collected_parts (p : processor) (e : entry) (all : list entry)
    : list str :=
  (collect_background all (hierarchy_cache p) (hierarchy e)).2.

Definition joined_ancestors (p : processor) (e : entry) (all : list entry)
    : str :=
  Py.join BLANK_LINE (collected_parts p e all).

(** The fixed overheads: the two labels, and the truncation marker. *)
Definition label_overhead : Z := Py.len BG_OPEN + Py.len BG_CLOSE.
Definition marker_overhead : Z := Py.len TRUNC_MARK.

(** [s] is wrapped in the open and close labels. *)
Definition wrapped (s : str) : Prop :=
  exists inner, s = BG_OPEN ++ inner ++ BG_CLOSE.

(** What the assembler records for the segment [seg] under budget [b]. *)
Definition assembled (b : budget) (seg : str) (c : chunk) : Prop :=
  chunk_content c
  = match background b with
    | [] => seg
    | _ => background b ++ BLANK_LINE ++ seg
    end
  /\ chunk_size (metadata c) = Py.len (chunk_content c)
  /\ background_size (metadata c) = background_length b
  /\ content_size (metadata c) = Py.len seg.

(** Only whitespace. *)
Definition all_space (s : str) : Prop := Forall (fun c => Py.isspace c = true) s.

(** No leading whitespace. *)
Definition no_lead (s : str) : Prop :=
  match s with
  | c :: _ => Py.isspace c = false
  | [] => True
  end.

(** A segment as the loop emits it: non-empty, and already trimmed. *)
Definition trimmed_nonempty (s : str) : Prop := s <> [] /\ Py.strip s = s.

(** What one slice contributes: its trimmed text, or nothing when that is
    empty. *)
Definition segment_of (content : str) (w : Z * Z) : list str :=
  add_chunk [] (Py.strip (Py.slice content w.1 w.2)).

Definition segments_of (content : str) (ws : list (Z * Z)) : list str :=
  concat (map (segment_of content) ws).

(** [s[:len(s) - n]]: [s] without its last [n] characters. *)
Definition drop_last {A} (n : Z) (l : list A) : list A :=
  take (length l - Z.to_nat n) l.

(** The reconstruction of the specification: the trailing [overlap]
    characters are removed from every segment but the last, and the
    pieces are concatenated. *)
Fixpoint reconstruct (overlap : Z) (segs : list str) : str :=
  match segs with
  | [] => []
  | [s] => s
  | s :: rest => drop_last overlap s ++ reconstruct overlap rest
  end.

(** The text without any whitespace. *)
Definition remove_space (s : str) : str :=
  filter (fun c => Py.isspace c = false) s.

(** The untrimmed slices of a trace, each but the last without the
    characters it shares with the next slice, concatenated. *)
Fixpoint stitch (content : str) (ws : list (Z * Z)) : str :=
  match ws with
  | [] => []
  | (s, e) :: rest =>
      match rest with
      | [] => Py.slice content s e
      | (s', _) :: _ => drop_last (e - s') (Py.slice content s e) ++ stitch content rest
      end
  end.

(** The pairs of neighbours in a list. *)
Fixpoint adjacent {A} (l : list A) : list (A * A) :=
  match l with
  | a :: rest =>
      match rest with
      | [] => []
      | b :: _ => (a, b) :: adjacent rest
      end
  | [] => []
  end.

(** Two consecutive slices [(s, e)] and [(s', _)] of the loop: the second
    starts at [max(s + 1, e - overlap)], after [s] and not after [e], so
    they share [e - s' = min(overlap, e - s - 1)] characters. *)
Definition chained (content : str) (overlap : Z) (ww : (Z * Z) * (Z * Z)) : Prop :=
  let '((s, e), (s', _)) := ww in
  s' = next_start overlap s e /\ s < s' <= e /\ e < Py.len content
  /\ e - s' = Z.min overlap (e - s - 1).

(** ** Further notions: cache, substrings, cuts *)

(** What an ancestor title resolves to in a document: the trimmed body of
    the first entry that carries the title. *)
Definition resolve (all_entries : list entry) (hierarchy_title : str)
    : option str :=
  (fun e => Py.strip (content e)) <$> find_entry hierarchy_title all_entries.

(** A cache that only holds what the document resolves. *)
Definition cache_consistent (all_entries : list entry) (cache : gmap str str)
    : Prop :=
  forall h v, cache !! h = Some v -> resolve all_entries h = Some v.

(** The loop of [process_json_file] with the cache emptied before every
    entry (a reference to compare the cached loop with). *)
Fixpoint process_entries_uncached (p : processor) (todo all_entries : list entry)
    (source_filename : str) : list chunk * processor :=
  match todo with
  | [] => ([], p)
  | e :: rest =>
      let '(chunks, p) :=
        create_chunks_from_entry (set_cache p ∅) e all_entries source_filename in
      let '(more, p) :=
        process_entries_uncached p rest all_entries source_filename in
      (chunks ++ more, p)
  end.

(** Two engines that differ at most in their cache. *)
Definition same_but_cache (p q : processor) : Prop :=
  chunk_size_cfg p = chunk_size_cfg q
  /\ overlap_size p = overlap_size q
  /\ max_background_size p = max_background_size q
  /\ global_chunk_counter p = global_chunk_counter q.

(** [s] occurs in [t] as a contiguous substring. *)
Definition infix_of (s t : str) : Prop := exists a b, t = a ++ s ++ b.

(** The character classes of the boundary search. *)
Definition is_sentence_char (c : ascii) : bool := bool_decide (c ∈ lit ".!?").

(** ** [process_json_file]: the statistics *)

(** [sum(l)] *)
Definition py_sum (l : list Z) : Z := fold_left Z.add l 0.

(** The integer fields of the statistics dictionary ([input_file] and
    [output_file] are the arguments, [average_chunk_size] is a
    floating-point quotient). *)
Record stats := Stats {
  original_entries : Z;
  total_chunks : Z;
  original_total_chars : Z;
  chunked_total_chars : Z;
  target_chunk_size : Z;
  stats_overlap_size : Z
}.

(** Lines 305-314: the loop over the entries with its three accumulators
    [all_chunks], [total_original_chars] and [total_chunks]. *)
Fixpoint accumulate_entries (p : processor) (todo all_entries : list entry)
    (source_filename : str) (acc : list chunk * Z * Z)
    : (list chunk * Z * Z) * processor :=
  match todo with
  | [] => (acc, p)
  | e :: rest =>
      let '(all_chunks, total_original_chars, total_chunks) := acc in
      let original_content_length := Py.len (content e) in
      let total_original_chars := total_original_chars + original_content_length in
      let '(chunks, p) :=
        create_chunks_from_entry p e all_entries source_filename in
      accumulate_entries p rest all_entries source_filename
        (all_chunks ++ chunks, total_original_chars,
         total_chunks + Py.len chunks)
  end.

(** [process_json_file] with what it returns (the statistics) next to
    what it writes ([all_chunks]). *)
Definition process_json_file_stats (p : processor) (input_file : str)
    (entries : list entry) : (stats * list chunk) * processor :=
  let p := set_cache p ∅ in
  let source_filename := basename input_file in
  let total_entries := Py.len entries in
  let '((all_chunks, total_original_chars, total_chunks), p) :=
    accumulate_entries p entries entries source_filename ([], 0, 0) in
  let total_chunk_chars :=
    py_sum (map (fun c => Py.len (chunk_content c)) all_chunks) in
  (Stats total_entries total_chunks total_original_chars total_chunk_chars
         (chunk_size_cfg p) (overlap_size p),
   all_chunks, p).

(** ** [markdown_to_JSON.py]: [build_hierarchy] *)
Module Md.

(** A heading as [extract_headings_and_content] records it. *)
Record heading := Heading {
  level : Z;
  title : str;
  start_pos : Z;
  type : str
}.

(** A section: a heading and its content. *)
Record section := MkSection {
  heading_of : heading;
  content : str
}.

(** An entry of the JSON file, with its metadata. *)
Record json_entry := JsonEntry {
  entry_content : str;
  entry_title : str;
  hierarchy : list str;
  full_path : str;
  entry_level : Z;
  content_length : Z;
  word_count : Z
}.

(** [s.split()]: the maximal runs of non-whitespace characters. [cur]
    holds the current run, reversed. *)
Fixpoint split_ws (cur : str) (s : str) : list str :=
  match s with
  | [] => match cur with [] => [] | _ => [rev cur] end
  | c :: s' =>
      if Py.isspace c then
        match cur with
        | [] => split_ws [] s'
        | _ => rev cur :: split_ws [] s'
        end
      else split_ws (c :: cur) s'
  end.

(** The [while heading_stack and heading_stack[-1]['level'] >=
    current_level: heading_stack.pop()] loop. The stack is kept with its
    top (the last element of the Python list) first. *)
Fixpoint pop_while (current_level : Z) (heading_stack : list heading)
    : list heading :=
  match heading_stack with
  | h :: below =>
      if level h >=? current_level then pop_while current_level below
      else heading_stack
  | [] => []
  end.

(** The body of the loop over the sections: the new stack and the entry. *)
Definition build_entry (heading_stack : list heading) (s : section)
    : list heading * json_entry :=
  let heading := heading_of s in
  let current_level := level heading in
  let heading_stack := heading :: pop_while current_level heading_stack in
  (* heading_stack[:-1], bottom first *)
  let hier := rev (map title (tail heading_stack)) in
  let current_title := title heading in
  (heading_stack,
   JsonEntry (content s) current_title hier
     (match hier with
      | [] => current_title
      | _ => Py.join (lit " > ") (hier ++ [current_title])
      end)
     current_level (Py.len (content s))
     (Py.len (split_ws [] (content s)))).

Fixpoint build_loop (heading_stack : list heading) (sections : list section)
    : list json_entry :=
  match sections with
  | [] => []
  | s :: rest =>
      let '(heading_stack, entry) := build_entry heading_stack s in
      entry :: build_loop heading_stack rest
  end.

Definition build_hierarchy (sections : list section) : list json_entry :=
  build_loop [] sections.

End Md.

(** What the engine reads of an entry of the JSON file. *)
Definition entry_of_json (j : Md.json_entry) : entry :=
  Entry (Md.entry_content j) (Some (Md.entry_title j)) (Md.hierarchy j)
        (Some (Md.full_path j)).

(** ** [chunk_to_ChromaDB.py]: [filter_new_chunks] and [add_chunks] *)
Module Db.

(** A value of a metadata dictionary. *)
Inductive value :=
  | VStr (s : str)
  | VInt (z : Z).

(** The metadata dictionary of a loaded chunk: the [chunk_id] key, which
    may be missing, and the other keys. *)
Record metadata := Metadata {
  chunk_id : option str;
  other_keys : list (str * value)
}.

(** A loaded chunk: [content] and [metadata] may be missing. *)
Record chunk := Chunk {
  content : option str;
  meta : option metadata
}.

(** [chunk.get('metadata', {})] *)
Definition metadata_of (c : chunk) : metadata :=
  default (Metadata None []) (meta c).

(** [metadata.get('chunk_id', f"chunk_{n}")] *)
Definition id_or_default (c : chunk) (n : nat) : str :=
  default (lit "chunk_" ++ Py.fmt_d (N.of_nat n)) (chunk_id (metadata_of c)).

(** The loop of [filter_new_chunks], [existing_ids] being what
    [get_existing_chunk_ids] returned. *)
Fixpoint filter_loop (existing_ids : gset str) (chunks new_chunks : list chunk)
    : list chunk :=
  match chunks with
  | [] => new_chunks
  | c :: rest =>
      let cid := id_or_default c (length new_chunks) in
      if decide (cid ∉ existing_ids)
      then filter_loop existing_ids rest (new_chunks ++ [c])
      else filter_loop existing_ids rest new_chunks
  end.

Definition filter_new_chunks (existing_ids : gset str) (chunks : list chunk)
    : list chunk :=
  filter_loop existing_ids chunks [].

(** The arguments of [collection.add]. *)
Record add_request := AddRequest {
  documents : list str;
  metadatas : list metadata;
  ids : list str
}.

(** The loop of [add_chunks] that fills [documents], [metadatas] and
    [ids]. *)
Fixpoint collect_request (chunks_to_add : list chunk) (r : add_request)
    : add_request :=
  match chunks_to_add with
  | [] => r
  | c :: rest =>
      let cid := id_or_default c (length (documents r)) in
      collect_request rest
        (AddRequest (documents r ++ [default [] (content c)])
                    (metadatas r ++ [metadata_of c])
                    (ids r ++ [cid]))
  end.

(** [add_chunks] on an initialised collection: the request sent to the
    collection, or [None] when there is nothing to add. *)
Definition add_chunks (existing_ids : gset str) (chunks : list chunk)
    (force_recompute : bool) : option add_request :=
  let chunks_to_add :=
    if force_recompute then chunks else filter_new_chunks existing_ids chunks in
  match chunks_to_add with
  | [] => None
  | _ => Some (collect_request chunks_to_add (AddRequest [] [] []))
  end.

End Db.

(** A chunk of the engine as [load_json_chunks] reads it back from the
    chunk file. *)
Definition loaded (c : chunk) : Db.chunk :=
  Db.Chunk (Some (chunk_content c))
    (Some (Db.Metadata (Some (chunk_id (metadata c)))
             [(lit "source_file", Db.VStr (source_file (metadata c)));
              (lit "full_path", Db.VStr (meta_full_path (metadata c)));
              (lit "chunk_size", Db.VInt (chunk_size (metadata c)));
              (lit "background_size", Db.VInt (background_size (metadata c)));
              (lit "content_size", Db.VInt (content_size (metadata c)))])).

(** ** Notions for [build_hierarchy] and [filter_new_chunks] *)

(** The heading stack after the sections [done] were processed. *)
Definition stack_after (heading_stack : list Md.heading)
    (done : list Md.section) : list Md.heading :=
  fold_left (fun st s => (Md.build_entry st s).1) done heading_stack.

(** The first heading of a list whose level is below [lvl]. *)
Definition nearest_below (lvl : Z) (hs : list Md.heading) : option Md.heading :=
  List.find (fun h => Md.level h <? lvl) hs.

(** Levels strictly decrease from the top of the stack to its bottom. *)
Definition decreasing (heading_stack : list Md.heading) : Prop :=
  StronglySorted (fun a b => Md.level b < Md.level a) heading_stack.

(** The document the engine reads from the JSON file of [sections]. *)
Definition document_of (sections : list Md.section) : list entry :=
  map entry_of_json (Md.build_hierarchy sections).

(** A loaded chunk that carries its own identifier, and that identifier. *)
Definition has_id (c : Db.chunk) : Prop :=
  is_Some (Db.chunk_id (Db.metadata_of c)).

Definition own_id (c : Db.chunk) : str :=
  default [] (Db.chunk_id (Db.metadata_of c)).

(** * Properties *)

(** ** The model on sample inputs *)

Example strip_ex : Py.strip (lit "  a b  ") = lit "a b".
Proof. reflexivity. Qed.
Example slice_ex1 : Py.slice (lit "abcdef") 1 (-2) = lit "bcd".
Proof. reflexivity. Qed.
Example slice_ex2 : Py.slice_from (lit "abcdef") (-2) = lit "ef".
Proof. reflexivity. Qed.
Example slice_ex3 : Py.slice_from (lit "abcdef") 9 = [].
Proof. reflexivity. Qed.
Example stem_ex1 : Py.path_stem (lit "dir/report.v2.json") = lit "report.v2".
Proof. reflexivity. Qed.
Example stem_ex2 : Py.path_stem (lit ".bashrc") = lit ".bashrc".
Proof. reflexivity. Qed.
Example fmt_ex1 : Py.fmt_06d 12 = lit "000012".
Proof. reflexivity. Qed.
Example fmt_ex2 : Py.fmt_06d 1234567 = lit "1234567".
Proof. reflexivity. Qed.

Example generate_chunk_id_ex :
  fst (generate_chunk_id (new_processor 5000 200 2000)
         (lit "paper.json") (lit " 2.1 Methods & Data! ") 3)
  = lit "chunk_000001_paper_21_Methods__Data_3".
Proof. vm_compute. reflexivity. Qed.

(** Sentence boundaries first, then a word boundary, then the rest. *)
Example split_ex :
  split_content_with_overlap (new_processor 5000 3 2000)
    (lit "One. Two! Three? Four five six seven") 12
  = [lit "One. Two!"; lit "wo! Three?"; lit "ee?"; lit "e?";
     lit "? Four five"; lit "ve six seven"].
Proof. vm_compute. reflexivity. Qed.

Example split_windows_ex :
  split_windows 36 (lit "One. Two! Three? Four five six seven") 12 3 0
  = [(0, 9); (6, 16); (13, 16); (14, 16); (15, 27); (24, 36)].
Proof. vm_compute. reflexivity. Qed.

(** One document, two entries; the second names a missing ancestor. *)
Example process_json_file_ex :
  let e1 := Entry (lit "Intro text here") (Some (lit "Intro")) [] None in
  let e2 := Entry (repeat "y"%char 30) (Some (lit "Methods"))
              [lit "Intro"; lit "Missing"] (Some (lit "Intro > Methods")) in
  let out := process_json_file (new_processor 200 10 80) (lit "a/b/doc.json")
               [e1; e2] in
  map (fun c => (chunk_id (metadata c), chunk_size (metadata c),
                 background_size (metadata c), content_size (metadata c)))
      out.1
  = [(lit "chunk_000001_doc_Intro_0", 15, 0, 15);
     (lit "chunk_000002_doc_Methods_0", 74, 42, 30)]
  /\ global_chunk_counter out.2 = 2%N.
Proof. vm_compute. split; reflexivity. Qed.

(** ** Identifiers *)
Section Identifiers.

Lemma uint_of_digits_of_uint d : Py.uint_of_digits (Py.digits_of_uint d) = d.
Proof. induction d; simpl; [reflexivity | f_equal; assumption ..]. Qed.

Lemma digits_of_uint_digits d : Forall (fun c => Py.is_ascii_digit c = true) (Py.digits_of_uint d).
Proof. induction d; simpl; constructor; auto. Qed.

Lemma take_digits_app ds c rest :
  Forall (fun c => Py.is_ascii_digit c = true) ds ->
  Py.is_ascii_digit c = false ->
  take_digits (ds ++ c :: rest) = ds.
Proof.
  intros Hds Hc. induction Hds as [|d ds Hd _ IH]; simpl.
  - now rewrite Hc.
  - rewrite Hd. now f_equal.
Qed.

Lemma of_uint_zeros k d :
  N.of_uint (Py.uint_of_digits (repeat "0"%char k ++ Py.digits_of_uint d))
  = N.of_uint d.
Proof.
  induction k as [|k IH]; simpl.
  - now rewrite uint_of_digits_of_uint.
  - exact IH.
Qed.

Lemma fmt_06d_digits n : Forall (fun c => Py.is_ascii_digit c = true) (Py.fmt_06d n).
Proof.
  unfold Py.fmt_06d, Py.fmt_d. apply Forall_app. split.
  - apply Forall_forall. intros c Hc. apply list_elem_of_In, repeat_spec in Hc. now subst.
  - apply digits_of_uint_digits.
Qed.

Lemma fmt_06d_value n : N.of_uint (Py.uint_of_digits (Py.fmt_06d n)) = n.
Proof.
  unfold Py.fmt_06d, Py.fmt_d. rewrite of_uint_zeros.
  apply DecimalN.Unsigned.of_to.
Qed.

(** The counter is recoverable from the identifier, whatever the file
    name, the title and the index are. *)
Lemma read_counter_chunk_id n f t i : read_counter (chunk_id_of n f t i) = n.
Proof.
  unfold read_counter, chunk_id_of.
  change (lit "chunk_" ++ ?x) with ("c" :: "h" :: "u" :: "n" :: "k" :: "_" :: x)%char.
  change (lit "_" ++ ?x) with ("_"%char :: x).
  cbn [skipn]. rewrite drop_0.
  rewrite take_digits_app; [apply fmt_06d_value | apply fmt_06d_digits | reflexivity].
Qed.

End Identifiers.

(** ** The counter across a run *)
Section Counter.

Lemma counters_from_S c k :
  counters_from c (S k) = (c + 1)%N :: counters_from (c + 1) k.
Proof.
  unfold counters_from. cbn [seq map]. f_equal; [lia|].
  rewrite <- seq_shift, map_map. apply map_ext. intros i. lia.
Qed.

Lemma counters_from_app c a b :
  counters_from c (a + b)
  = counters_from c a ++ counters_from (c + N.of_nat a) b.
Proof.
  revert c. induction a as [|a IH]; intros c.
  - replace (c + N.of_nat 0)%N with c by lia. reflexivity.
  - cbn [Nat.add]. rewrite !counters_from_S, IH. cbn [app].
    replace (c + 1 + N.of_nat a)%N with (c + N.of_nat (S a))%N by lia.
    reflexivity.
Qed.

Lemma counters_from_NoDup c k : NoDup (counters_from c k).
Proof.
  unfold counters_from.
  assert (Inj eq eq (fun i : nat => (c + 1 + N.of_nat i)%N)) as Hinj
    by (intros i j H; lia).
  apply (NoDup_fmap_2 _), NoDup_seq.
Qed.

Lemma emits_nil p p' :
  global_chunk_counter p' = global_chunk_counter p -> emits p [] p'.
Proof. intros H. split; [reflexivity | simpl; lia]. Qed.

Lemma emits_app p a p1 b p2 :
  emits p a p1 -> emits p1 b p2 -> emits p (a ++ b) p2.
Proof.
  intros [Ha Hc1] [Hb Hc2]. split.
  - rewrite map_app, length_app, counters_from_app, Ha, Hb, Hc1. reflexivity.
  - rewrite length_app, Hc2, Hc1. lia.
Qed.

Lemma emits_counter_eq p chunks p' q :
  global_chunk_counter q = global_chunk_counter p ->
  emits q chunks p' -> emits p chunks p'.
Proof. unfold emits. intros ->. auto. Qed.

Lemma assemble_chunks_emits segs : forall p b f t fp i,
  emits p (assemble_chunks p b f t fp i segs).1
          (assemble_chunks p b f t fp i segs).2
  /\ length (assemble_chunks p b f t fp i segs).1 = length segs.
Proof.
  induction segs as [|seg segs IH]; intros p b f t fp i.
  - split; [now apply emits_nil | reflexivity].
  - cbn [assemble_chunks]. unfold generate_chunk_id.
    set (q := set_counter p (global_chunk_counter p + 1)).
    destruct (IH q b f t fp (S i)) as [[Hm Hc] Hl].
    destruct (assemble_chunks q b f t fp (S i) segs) as [cs p2].
    cbn [fst snd] in *. split; [split|].
    + cbn [map length]. unfold id_of at 1. cbn [metadata chunk_id].
      rewrite read_counter_chunk_id, Hm.
      rewrite counters_from_S. subst q. reflexivity.
    + rewrite Hc. subst q. cbn. lia.
    + cbn. now rewrite Hl.
Qed.

Lemma entry_budget_counter p e all :
  global_chunk_counter (entry_budget p e all).2 = global_chunk_counter p.
Proof.
  unfold entry_budget, build_hierarchical_background.
  destruct (collect_background all (hierarchy_cache p) (hierarchy e)).
  reflexivity.
Qed.

Lemma create_chunks_emits p e all f :
  emits p (create_chunks_from_entry p e all f).1
          (create_chunks_from_entry p e all f).2.
Proof.
  unfold create_chunks_from_entry.
  pose proof (entry_budget_counter p e all) as Hq.
  destruct (entry_budget p e all) as [b q]. cbn [snd] in Hq.
  eapply emits_counter_eq; [exact Hq|]. apply assemble_chunks_emits.
Qed.

Lemma process_entries_emits todo : forall p all f,
  emits p (process_entries p todo all f).1 (process_entries p todo all f).2.
Proof.
  induction todo as [|e todo IH]; intros p all f.
  - now apply emits_nil.
  - cbn [process_entries].
    pose proof (create_chunks_emits p e all f) as H1.
    destruct (create_chunks_from_entry p e all f) as [cs p1].
    pose proof (IH p1 all f) as H2.
    destruct (process_entries p1 todo all f) as [more p2].
    cbn [fst snd] in *. eapply emits_app; eauto.
Qed.

(** Resetting the cache for a new document keeps the counter. *)
Lemma process_json_file_emits p input_file entries :
  emits p (process_json_file p input_file entries).1
          (process_json_file p input_file entries).2.
Proof.
  unfold process_json_file.
  eapply emits_counter_eq; [|apply process_entries_emits]. reflexivity.
Qed.

Lemma process_all_json_files_emits docs : forall p,
  emits p (concat (process_all_json_files p docs).1)
          (process_all_json_files p docs).2.
Proof.
  induction docs as [|[input_file entries] docs IH]; intros p.
  - now apply emits_nil.
  - cbn [process_all_json_files].
    pose proof (process_json_file_emits p input_file entries) as H1.
    destruct (process_json_file p input_file entries) as [cs p1].
    pose proof (IH p1) as H2.
    destruct (process_all_json_files p1 docs) as [more p2].
    cbn [fst snd concat] in *. eapply emits_app; eauto.
Qed.

(** C1. In a run of one engine instance over any sequence of documents,
    started in any state [p]: the identifiers of all chunks emitted are
    pairwise distinct; the k-th chunk of the run carries the counter
    value [counter p + k], and the counter ends at its initial value plus
    the number of chunks emitted; [generate_chunk_id] adds one to the
    counter; and starting a document resets the hierarchy cache only,
    not the counter. *)
Theorem chunk_ids_unique (p : processor) (docs : list (str * list entry)) :
  let out := process_all_json_files p docs in
  NoDup (map id_of (concat out.1))
  /\ map (fun c => read_counter (id_of c)) (concat out.1)
     = counters_from (global_chunk_counter p) (length (concat out.1))
  /\ global_chunk_counter out.2
     = (global_chunk_counter p + N.of_nat (length (concat out.1)))%N
  /\ (forall q f t i,
        global_chunk_counter (generate_chunk_id q f t i).2
        = (global_chunk_counter q + 1)%N)
  /\ (forall input_file entries,
        global_chunk_counter (set_cache p ∅) = global_chunk_counter p
        /\ hierarchy_cache (set_cache p ∅) = ∅
        /\ process_json_file p input_file entries
           = process_entries (set_cache p ∅) entries entries
               (basename input_file)).
Proof.
  intros out. destruct (process_all_json_files_emits docs p) as [Hm Hc].
  fold out in Hm, Hc. repeat split; try assumption.
  apply (NoDup_fmap_1 read_counter).
  change (fmap ?f ?l) with (map f l). rewrite map_map, Hm.
  apply counters_from_NoDup.
Qed.

End Counter.

(** ** The boundary search *)
Section BoundarySearch.

Lemma scan_down_spec test n i r :
  scan_down test n i = Some r ->
  i - Z.of_nat n < r <= i /\ test r = true.
Proof.
  revert i. induction n as [|n IH]; intros i H; [discriminate|].
  cbn [scan_down] in H. destruct (test i) eqn:Hi.
  - injection H as <-. split; [lia | assumption].
  - apply IH in H. split; [lia | tauto].
Qed.


(** A search over [range(hi, lo, -1)] only ever returns an index of that
    range, at which the test holds. *)
Lemma rsearch_spec test hi lo r :
  rsearch test hi lo = Some r -> lo < r <= hi /\ test r = true.
Proof.
  unfold rsearch. intros H. apply scan_down_spec in H. split; [lia | tauto].
Qed.

Lemma rsearch_empty test hi lo : hi <= lo -> rsearch test hi lo = None.
Proof.
  unfold rsearch. intros H. replace (Z.to_nat (hi - lo)) with 0%nat by lia.
  reflexivity.
Qed.

(** Every index the four searches of one iteration read lies inside the
    content: [content[i]] and [content[i + 1]] raise no [IndexError]. *)
Lemma search_in_range (content : str) test start e w r :
  0 <= start -> e < Py.len content ->
  rsearch test (e - 1) (Z.max start (e - w)) = Some r ->
  0 < r /\ r + 1 < Py.len content
  /\ is_Some (Py.get content r) /\ is_Some (Py.get content (r + 1)).
Proof.
  intros Hs He H. apply rsearch_spec in H as [H _].
  assert (0 < r /\ r + 1 < Py.len content) as Hr by lia.
  split; [lia|]. split; [lia|]. unfold Py.get, Py.len in *.
  rewrite !(proj2 (Z.ltb_ge _ _)) by lia.
  split; apply lookup_lt_is_Some; lia.
Qed.

(** The break point lies strictly after [start + 1] when a boundary was
    found, and is the tentative [end] otherwise; it never exceeds
    [end + 1] (a paragraph break found at [end - 1] gives [end + 1]). *)
Lemma find_break_point_bounds content start e :
  start < e ->
  start < find_break_point content start e <= e + 1.
Proof.
  intros Hse. unfold find_break_point.
  repeat match goal with
  | |- context [rsearch ?t ?hi ?lo] =>
      let H := fresh "H" in
      destruct (rsearch t hi lo) eqn:H;
      [apply rsearch_spec in H as [H _]|]
  | |- context [Z.eqb ?a ?b] => destruct (Z.eqb_spec a b)
  end; lia.
Qed.

Lemma find_break_point_empty content start e :
  e <= start -> find_break_point content start e = e.
Proof.
  intros H. unfold find_break_point.
  rewrite !rsearch_empty by lia. now rewrite !Z.eqb_refl.
Qed.

Lemma cut_end_bounds content avail start :
  0 < avail ->
  start < cut_end content avail start <= start + avail + 1.
Proof.
  intros Ha. unfold cut_end. destruct (Z.ltb_spec (start + avail) (Py.len content)).
  - apply find_break_point_bounds. lia.
  - lia.
Qed.

(** Line 179: the next start is strictly after the current one, whatever
    the break point and the overlap are. *)
Lemma next_start_gt overlap start e : start < next_start overlap start e.
Proof. unfold next_start. lia. Qed.

(** With a non-negative overlap the next slice starts no later than the
    current one ends: consecutive slices leave no gap. *)
Lemma next_start_le overlap start e :
  0 <= overlap -> start < e -> next_start overlap start e <= e.
Proof. unfold next_start. lia. Qed.

End BoundarySearch.

(** ** Termination of the splitter *)
Section Termination.

Lemma split_loop_enough_fuel fuel content avail ov : forall start chunks,
  (Z.to_nat (Py.len content - start) <= fuel)%nat ->
  is_Some (split_loop fuel content avail ov start chunks).
Proof.
  induction fuel as [|fuel IH]; intros start chunks Hf; cbn [split_loop];
    destruct (Z.ltb_spec start (Py.len content)); try (eexists; reflexivity);
    [lia|].
  destruct (_ >=? _); [eexists; reflexivity|].
  apply IH. pose proof (next_start_gt ov start (cut_end content avail start)). lia.
Qed.

(** More fuel than needed changes nothing. *)
Lemma split_loop_fuel_mono fuel content avail ov : forall start chunks r fuel',
  split_loop fuel content avail ov start chunks = Some r ->
  (fuel <= fuel')%nat ->
  split_loop fuel' content avail ov start chunks = Some r.
Proof.
  induction fuel as [|fuel IH]; intros start chunks r fuel' H Hle.
  - cbn [split_loop] in H. destruct fuel'; cbn [split_loop];
      destruct (start <? Py.len content); congruence.
  - destruct fuel' as [|fuel']; [lia|]. cbn [split_loop] in *.
    destruct (start <? Py.len content); [|assumption].
    destruct (_ >=? _); [assumption|]. eapply IH; [eassumption | lia].
Qed.

Lemma split_windows_fuel_mono fuel content avail ov : forall start fuel',
  (Z.to_nat (Py.len content - start) <= fuel)%nat -> (fuel <= fuel')%nat ->
  split_windows fuel' content avail ov start
  = split_windows fuel content avail ov start.
Proof.
  induction fuel as [|fuel IH]; intros start fuel' Hf Hle.
  - destruct fuel'; cbn [split_windows];
      destruct (Z.ltb_spec start (Py.len content)); try reflexivity; lia.
  - destruct fuel' as [|fuel']; [lia|]. cbn [split_windows].
    destruct (Z.ltb_spec start (Py.len content)); [|reflexivity].
    f_equal. destruct (_ >=? _); [reflexivity|]. apply IH; [|lia].
    pose proof (next_start_gt ov start (cut_end content avail start)). lia.
Qed.

Lemma split_windows_length fuel content avail ov start :
  (length (split_windows fuel content avail ov start) <= fuel)%nat.
Proof.
  revert start. induction fuel as [|fuel IH]; intros start; cbn [split_windows];
    destruct (start <? Py.len content); cbn [length]; try lia.
  destruct (_ >=? _); cbn [length]; [lia|].
  specialize (IH (next_start ov start (cut_end content avail start))). lia.
Qed.

Lemma split_windows_starts_ge fuel content avail ov : forall start w,
  w ∈ split_windows fuel content avail ov start -> start <= w.1.
Proof.
  induction fuel as [|fuel IH]; intros start w; cbn [split_windows];
    destruct (start <? Py.len content); try (intros H; now inversion H).
  intros H. apply elem_of_cons in H as [->|H]; [cbn; lia|].
  destruct (_ >=? _); [now inversion H|]. apply IH in H.
  pose proof (next_start_gt ov start (cut_end content avail start)). lia.
Qed.

(** The starts of the successive iterations strictly increase. *)
Lemma split_windows_starts_sorted fuel content avail ov : forall start,
  StronglySorted Z.lt (map fst (split_windows fuel content avail ov start)).
Proof.
  induction fuel as [|fuel IH]; intros start; cbn [split_windows];
    destruct (start <? Py.len content); try constructor.
  - destruct (_ >=? _); [constructor | apply IH].
  - destruct (_ >=? _); [constructor|]. apply Forall_forall.
    intros s Hs. apply list_elem_of_fmap in Hs as [w [-> Hw]].
    apply split_windows_starts_ge in Hw. cbn [fst].
    pose proof (next_start_gt ov start (cut_end content avail start)). lia.
Qed.

(** C7. [split_content_with_overlap] terminates, for every content, every
    [available_chars] (positive or not) and every overlap of the engine
    (also one that is at least [available_chars]): the loop returns a
    result within [len(content)] executions of its body, and that result
    is what the function returns for content that does not fit; further
    fuel changes neither the result nor the trace; the next start is
    [max(start + 1, end - overlap)], strictly after the current start,
    and the starts of the successive iterations strictly increase. *)
Theorem split_loop_terminates (p : processor) (content : str) (avail : Z) :
  let ov := overlap_size p in
  (exists segs,
      split_loop (length content) content avail ov 0 [] = Some segs
      /\ (forall fuel, (length content <= fuel)%nat ->
            split_loop fuel content avail ov 0 [] = Some segs)
      /\ (avail < Py.len content ->
          split_content_with_overlap p content avail = segs))
  /\ (forall fuel, (length content <= fuel)%nat ->
        split_windows fuel content avail ov 0
        = split_windows (length content) content avail ov 0)
  /\ (length (split_windows (length content) content avail ov 0)
      <= length content)%nat
  /\ (forall start e,
        next_start ov start e = Z.max (start + 1) (e - ov)
        /\ start < next_start ov start e)
  /\ StronglySorted Z.lt
       (map fst (split_windows (length content) content avail ov 0)).
Proof.
  intros ov.
  assert (Z.to_nat (Py.len content - 0) <= length content)%nat as Hf
    by (unfold Py.len; lia).
  split; [|split; [|split; [|split]]].
  - destruct (split_loop_enough_fuel (length content) content avail ov 0 [] Hf)
      as [segs Hsegs].
    exists segs. split; [assumption|]. split.
    + intros fuel Hfuel. eapply split_loop_fuel_mono; eassumption.
    + intros Hlong. unfold split_content_with_overlap.
      rewrite (proj2 (Z.leb_gt _ _) Hlong). fold ov. now rewrite Hsegs.
  - intros fuel Hfuel. now apply split_windows_fuel_mono.
  - apply split_windows_length.
  - intros start e. split; [reflexivity | apply next_start_gt].
  - apply split_windows_starts_sorted.
Qed.

End Termination.

(** ** Facts about the string operations *)
Section PyFacts.

Lemma len_app {A} (a b : list A) : Py.len (a ++ b) = Py.len a + Py.len b.
Proof. unfold Py.len. rewrite length_app. lia. Qed.

Lemma len_nonneg {A} (a : list A) : 0 <= Py.len a.
Proof. unfold Py.len. lia. Qed.

Lemma len_nil_iff {A} (a : list A) : Py.len a = 0 <-> a = [].
Proof.
  unfold Py.len. destruct a as [|x a]; [tauto|]. split; [|discriminate].
  rewrite length_cons. lia.
Qed.

Lemma norm_index_range n i : 0 <= n -> 0 <= Py.norm_index n i <= n.
Proof. unfold Py.norm_index. destruct (Z.ltb_spec i 0); lia. Qed.

Lemma len_slice_from {A} (l : list A) lo :
  Py.len (Py.slice_from l lo) = Py.len l - Py.norm_index (Py.len l) lo.
Proof.
  unfold Py.slice_from. pose proof (norm_index_range (Py.len l) lo (len_nonneg l)).
  unfold Py.len in *. rewrite length_drop. lia.
Qed.

Lemma startswith_app p s : Py.startswith (p ++ s) p = true.
Proof.
  induction p as [|c p IH]; [now destruct s|]. cbn.
  rewrite bool_decide_eq_true_2 by reflexivity. exact IH.
Qed.

Lemma endswith_app s p : Py.endswith (s ++ p) p = true.
Proof. unfold Py.endswith. rewrite rev_app_distr. apply startswith_app. Qed.

End PyFacts.

(** ** The background builder *)

Section Background.

Lemma build_background_unfold p e all :
  (build_hierarchical_background p e all).1
  = wrap_background (max_background_size p) (collected_parts p e all).
Proof.
  unfold build_hierarchical_background, collected_parts.
  destruct (collect_background all (hierarchy_cache p) (hierarchy e)).
  reflexivity.
Qed.

Lemma wrap_background_bound max_bg parts :
  0 <= max_bg ->
  Py.len (wrap_background max_bg parts).1
  <= max_bg + label_overhead + marker_overhead.
Proof.
  intros Hmax. unfold wrap_background, label_overhead, marker_overhead.
  change (Py.len BG_OPEN) with 13. change (Py.len BG_CLOSE) with 14.
  change (Py.len TRUNC_MARK) with 12.
  destruct (Py.join BLANK_LINE parts) as [|c raw] eqn:Hraw;
    [change (0 <= max_bg + (13 + 14) + 12); lia|].
  destruct (Z.gtb_spec (Py.len (c :: raw)) max_bg); cbn [fst].
  - rewrite !len_app, len_slice_from.
    change (Py.len BG_OPEN) with 13. change (Py.len BG_CLOSE) with 14.
    change (Py.len TRUNC_MARK) with 12.
    unfold Py.norm_index.
    destruct (Z.ltb_spec (Py.len (c :: raw) - max_bg + 12) 0); lia.
  - rewrite !len_app.
    change (Py.len BG_OPEN) with 13. change (Py.len BG_CLOSE) with 14. lia.
Qed.

Lemma wrap_background_truncated max_bg parts :
  let raw := Py.join BLANK_LINE parts in
  Py.len raw > max_bg -> raw <> [] ->
  wrap_background max_bg parts
  = (BG_OPEN ++ (TRUNC_MARK ++
       Py.slice_from raw (Py.len raw - max_bg + Py.len TRUNC_MARK))
       ++ BG_CLOSE, true).
Proof.
  intros raw Hlen Hne. unfold wrap_background. fold raw.
  destruct raw as [|c raw']; [congruence|].
  destruct (Z.gtb_spec (Py.len (c :: raw')) max_bg); [reflexivity | lia].
Qed.

(** C8. With a non-negative [max_background_size], the background that
    [build_hierarchical_background] returns is never longer than
    [max_background_size] plus the label overhead (27) plus the marker
    overhead (12). When the joined ancestor text is longer than
    [max_background_size], the flag is [True] and the background is the
    open label, the truncation marker, a tail of the joined text (its
    front is cut off) and the close label; for [max_background_size >=
    12] the marker and the kept tail together have exactly
    [max_background_size] characters. *)
Theorem background_bound (p : processor) (e : entry) (all : list entry) :
  0 <= max_background_size p ->
  let bg := (build_hierarchical_background p e all).1 in
  let raw := joined_ancestors p e all in
  Py.len bg.1 <= max_background_size p + label_overhead + marker_overhead
  /\ (Py.len raw > max_background_size p ->
      bg.2 = true
      /\ (exists k,
            bg.1 = BG_OPEN ++ (TRUNC_MARK ++ drop k raw) ++ BG_CLOSE
            /\ (12 <= max_background_size p ->
                Py.len (TRUNC_MARK ++ drop k raw) = max_background_size p))).
Proof.
  intros Hmax bg raw. subst bg. rewrite build_background_unfold.
  split; [now apply wrap_background_bound|].
  intros Hlen.
  assert (raw <> []) as Hne.
  { intros Heq. apply len_nil_iff in Heq. lia. }
  rewrite (wrap_background_truncated (max_background_size p)
             (collected_parts p e all) Hlen Hne).
  cbn [fst snd]. split; [reflexivity|].
  set (tp := Py.len raw - max_background_size p + Py.len TRUNC_MARK).
  exists (Z.to_nat (Py.norm_index (Py.len raw) tp)).
  split; [reflexivity|]. intros H12.
  change (drop _ raw) with (Py.slice_from raw tp).
  rewrite len_app, len_slice_from. subst tp.
  change (Py.len TRUNC_MARK) with 12.
  unfold Py.norm_index.
  destruct (Z.ltb_spec (Py.len raw - max_background_size p + 12) 0); lia.
Qed.

Lemma background_bound_witness :
  let p := new_processor 300 20 30 in
  let all := [Entry (lit "An introduction that is longer than thirty characters.")
                (Some (lit "Intro")) [] None] in
  let e := Entry (lit "body") (Some (lit "Methods")) [lit "Intro"] None in
  0 <= max_background_size p
  /\ Py.len (build_hierarchical_background p e all).1.1
     <= max_background_size p + label_overhead + marker_overhead.
Proof.
  intros p all e.
  assert (0 <= max_background_size p) as H by (cbn; lia).
  split; [exact H | exact (proj1 (background_bound p e all H))].
Defined.

End Background.

(** ** Missing ancestors and the empty background *)
Section MissingAncestor.

(** An ancestor title that is neither cached nor the title of an entry
    leaves the cache and the collected bodies as they were. *)
Lemma collect_step_skip all cache parts h :
  cache !! h = None -> find_entry h all = None ->
  collect_step all (cache, parts) h = (cache, parts).
Proof. intros Hc Hf. unfold collect_step. now rewrite Hc, Hf. Qed.

(** The cache only gains titles that some entry carries. *)
Lemma collect_step_keeps_none all st h k :
  st.1 !! h = None -> find_entry h all = None ->
  (collect_step all st k).1 !! h = None.
Proof.
  destruct st as [cache parts]. cbn [fst]. intros Hc Hf. unfold collect_step.
  destruct (cache !! k) eqn:Hk; [assumption|].
  destruct (find_entry k all) eqn:Hfk; [|assumption].
  cbn [fst]. rewrite lookup_insert_ne; [assumption|]. congruence.
Qed.

Lemma collect_fold_keeps_none all hs : forall st h,
  st.1 !! h = None -> find_entry h all = None ->
  (fold_left (collect_step all) hs st).1 !! h = None.
Proof.
  induction hs as [|k hs IH]; intros st h Hc Hf; [assumption|].
  cbn [fold_left]. apply IH; [|assumption]. now apply collect_step_keeps_none.
Qed.

Lemma collect_fold_skip all hs1 h hs2 st :
  st.1 !! h = None -> find_entry h all = None ->
  fold_left (collect_step all) (hs1 ++ h :: hs2) st
  = fold_left (collect_step all) (hs1 ++ hs2) st.
Proof.
  intros Hc Hf. rewrite !fold_left_app. cbn [fold_left]. f_equal.
  pose proof (collect_fold_keeps_none all hs1 st h Hc Hf) as Hn.
  destruct (fold_left (collect_step all) hs1 st) as [cache parts].
  now apply collect_step_skip.
Qed.

Lemma collect_fold_all_missing all hs : forall st,
  (forall h, h ∈ hs -> st.1 !! h = None /\ find_entry h all = None) ->
  fold_left (collect_step all) hs st = st.
Proof.
  induction hs as [|k hs IH]; intros [cache parts] H; [reflexivity|].
  cbn [fold_left]. destruct (H k) as [Hc Hf]; [left|]. cbn [fst] in Hc.
  rewrite collect_step_skip by assumption.
  apply IH. intros h Hh. apply H. now right.
Qed.

(** A wrapped background passes the label test of the second
    truncation (line 213). *)
Lemma wrapped_labels s :
  wrapped s -> Py.startswith s BG_OPEN && Py.endswith s BG_CLOSE = true.
Proof.
  intros [inner ->]. rewrite startswith_app, app_assoc, endswith_app.
  reflexivity.
Qed.

Lemma wrap_background_nil max_bg parts :
  Py.join BLANK_LINE parts = [] -> wrap_background max_bg parts = ([], false).
Proof. intros H. unfold wrap_background. now rewrite H. Qed.

Lemma wrap_background_wrapped max_bg parts :
  Py.join BLANK_LINE parts <> [] -> wrapped (wrap_background max_bg parts).1.
Proof.
  intros H. unfold wrap_background, wrapped.
  destruct (Py.join BLANK_LINE parts) as [|c raw]; [congruence|].
  destruct (_ >? _); cbn [fst]; eexists; reflexivity.
Qed.

(** The last part of C9 as stated fails: the ancestor ["A"] resolves to
    an entry, its body is empty, and the background returned is the
    empty string without labels. *)
Lemma resolved_ancestor_unwrapped :
  let p := new_processor 5000 200 2000 in
  let a := Entry [] (Some (lit "A")) [] None in
  let e := Entry (lit "body") (Some (lit "B")) [lit "A"] None in
  find_entry (lit "A") [a; e] = Some a
  /\ collected_parts p e [a; e] = [[]]
  /\ (build_hierarchical_background p e [a; e]).1 = ([], false)
  /\ ~ wrapped (build_hierarchical_background p e [a; e]).1.1.
Proof.
  intros p a e. repeat split.
  intros [inner H]. vm_compute in H. discriminate.
Qed.

(** C9, amended. An ancestor title that is neither cached nor the title
    of any entry is skipped: the result is that of the hierarchy without
    it. When no ancestor body is collected (empty hierarchy, or no
    ancestor resolves) the result is exactly [("", False)], without
    labels. The returned string is wrapped in the open and close labels
    whenever the join of the collected bodies is non-empty, which holds
    as soon as one collected body is non-empty, and the result is
    [("", False)] whenever the join is empty. *)
Theorem missing_ancestor_skipped (p : processor) (e : entry) (all : list entry) :
  (forall hs1 h hs2,
      hierarchy e = hs1 ++ h :: hs2 ->
      hierarchy_cache p !! h = None -> find_entry h all = None ->
      build_hierarchical_background p e all
      = build_hierarchical_background p
          (Entry (content e) (title e) (hs1 ++ hs2) (full_path e)) all)
  /\ (collected_parts p e all = [] ->
      (build_hierarchical_background p e all).1 = ([], false))
  /\ (hierarchy e = [] -> collected_parts p e all = [])
  /\ ((forall h, h ∈ hierarchy e ->
         hierarchy_cache p !! h = None /\ find_entry h all = None) ->
      collected_parts p e all = [])
  /\ (joined_ancestors p e all <> [] ->
      wrapped (build_hierarchical_background p e all).1.1)
  /\ ((exists body, body ∈ collected_parts p e all /\ body <> []) ->
      joined_ancestors p e all <> [])
  /\ (joined_ancestors p e all = [] ->
      (build_hierarchical_background p e all).1 = ([], false)).
Proof.
  repeat split.
  - intros hs1 h hs2 Hh Hc Hf.
    unfold build_hierarchical_background, collect_background.
    rewrite Hh. cbn [hierarchy]. now rewrite collect_fold_skip.
  - intros H. rewrite build_background_unfold, H. reflexivity.
  - intros H. unfold collected_parts, collect_background. now rewrite H.
  - intros H. unfold collected_parts, collect_background.
    now rewrite collect_fold_all_missing.
  - intros H. rewrite build_background_unfold. now apply wrap_background_wrapped.
  - intros [body [Hin Hne]]. unfold joined_ancestors.
    induction (collected_parts p e all) as [|x l IH]; [inversion Hin|].
    apply elem_of_cons in Hin as [<-|Hin].
    + destruct l; [assumption|]. cbn [Py.join].
      destruct body; [now destruct Hne | discriminate].
    + specialize (IH Hin). destruct l as [|y l]; [inversion Hin|].
      cbn [Py.join]. intros Heq. apply app_eq_nil in Heq as [_ Heq].
      discriminate.
  - intros H. rewrite build_background_unfold. now apply wrap_background_nil.
Qed.

Lemma missing_ancestor_skipped_witness :
  let p := new_processor 5000 200 2000 in
  let a := Entry (lit "Opening words.") (Some (lit "Intro")) [] None in
  let e := Entry (lit "body") (Some (lit "Methods"))
             [lit "Ghost"; lit "Intro"] None in
  build_hierarchical_background p e [a; e]
  = build_hierarchical_background p
      (Entry (lit "body") (Some (lit "Methods")) [lit "Intro"] None) [a; e].
Proof.
  intros p a e.
  exact (proj1 (missing_ancestor_skipped p e [a; e]) [] (lit "Ghost")
           [lit "Intro"] eq_refl eq_refl eq_refl).
Defined.

End MissingAncestor.

(** ** The budget allocation and the chunk metadata *)
Section Budget.

(** The recorded background length is the length of the background that
    is used, also after the second truncation. *)
Lemma allocate_budget_length cs bg :
  background_length (allocate_budget cs bg)
  = Py.len (background (allocate_budget cs bg)).
Proof.
  unfold allocate_budget. destruct bg as [bg wt].
  destruct (_ <? min_content_size); [|reflexivity].
  destruct (Z.gtb_spec (Py.len bg) 0); [|reflexivity].
  destruct (_ >? 0); reflexivity.
Qed.

(** The width handed to the splitter is never below the floor. *)
Lemma allocate_budget_floor cs bg :
  min_content_size <= available_chars (allocate_budget cs bg).
Proof.
  unfold allocate_budget. destruct bg as [bg wt].
  destruct (Z.ltb_spec (cs - Py.len bg) min_content_size).
  - destruct (_ >? 0); [destruct (_ >? 0)|]; cbn [available_chars]; lia.
  - cbn [available_chars]. lia.
Qed.

Lemma entry_budget_length p e all :
  background_length (entry_budget p e all).1
  = Py.len (background (entry_budget p e all).1).
Proof.
  unfold entry_budget. destruct (build_hierarchical_background p e all).
  apply allocate_budget_length.
Qed.

Lemma entry_budget_floor p e all :
  min_content_size <= available_chars (entry_budget p e all).1.
Proof.
  unfold entry_budget. destruct (build_hierarchical_background p e all).
  apply allocate_budget_floor.
Qed.

Lemma assemble_chunks_assembled segs : forall p b f t fp i,
  Forall2 (assembled b) segs (assemble_chunks p b f t fp i segs).1.
Proof.
  induction segs as [|seg segs IH]; intros p b f t fp i; [constructor|].
  cbn [assemble_chunks]. unfold generate_chunk_id.
  specialize (IH (set_counter p (global_chunk_counter p + 1)) b f t fp (S i)).
  destruct (assemble_chunks _ b f t fp (S i) segs) as [cs p2].
  cbn [fst] in *. constructor; [|assumption].
  repeat split.
Qed.

(** The segments and the budget behind the chunks of an entry. *)
Lemma create_chunks_assembled p e all f :
  let b := (entry_budget p e all).1 in
  let q := (entry_budget p e all).2 in
  Forall2 (assembled b)
    (split_content_with_overlap q (content e) (available_chars b))
    (create_chunks_from_entry p e all f).1.
Proof.
  unfold create_chunks_from_entry.
  destruct (entry_budget p e all) as [b q]. cbn [fst snd].
  apply assemble_chunks_assembled.
Qed.

Lemma Forall2_Forall_r {A B} (P : A -> B -> Prop) l k :
  Forall2 P l k -> Forall (fun y => exists x, x ∈ l /\ P x y) k.
Proof.
  induction 1 as [|x y l k HP _ IH]; constructor.
  - exists x. split; [left | assumption].
  - eapply Forall_impl; [exact IH|]. intros y' [x' [Hin HP']].
    exists x'. split; [now right | assumption].
Qed.

(** C10. Every chunk emitted for an entry records the exact character
    counts of its content, of the background used and of its content
    segment; with a non-empty background [chunk_size = background_size +
    2 + content_size], and with an empty background [background_size = 0]
    and [chunk_size = content_size]. *)
Theorem chunk_metadata_consistent (p : processor) (e : entry)
    (all : list entry) (f : str) :
  let b := (entry_budget p e all).1 in
  Forall (fun c =>
    let m := metadata c in
    exists seg,
      chunk_content c
      = match background b with
        | [] => seg
        | _ => background b ++ BLANK_LINE ++ seg
        end
      /\ chunk_size m = Py.len (chunk_content c)
      /\ background_size m = Py.len (background b)
      /\ content_size m = Py.len seg
      /\ (background b <> [] ->
          chunk_size m = background_size m + 2 + content_size m)
      /\ (background b = [] ->
          background_size m = 0 /\ chunk_size m = content_size m))
    (create_chunks_from_entry p e all f).1.
Proof.
  intros b. pose proof (create_chunks_assembled p e all f) as H.
  cbn zeta in H. fold b in H.
  pose proof (entry_budget_length p e all) as Hlen. fold b in Hlen.
  apply Forall2_Forall_r in H. eapply Forall_impl; [exact H|].
  intros c [seg [_ [Hc [Hs [Hb Hk]]]]]. exists seg. cbn zeta.
  rewrite Hs, Hb, Hk, Hlen.
  split; [exact Hc|]. do 3 (split; [reflexivity|]).
  rewrite Hc. destruct (background b) as [|x bg].
  - split; [congruence|]. intros _. split; reflexivity.
  - split; [|discriminate]. intros _.
    rewrite !len_app. change (Py.len BLANK_LINE) with 2. lia.
Qed.

End Budget.

(** ** The second truncation and the floor *)
Section Shrink.

(** C2, at a failing input: [chunk_size = 200], the default
    [max_background_size = int(200 * 0.4) = 80], one ancestor whose body
    has 80 characters. The background of the first stage has 107
    characters and leaves 93 < 100 for the content; 100 = [chunk_size -
    min_content_size] leaves room for labels and marker (39); the second
    truncation keeps [100 - 28 = 72] characters of the body and adds the
    marker, so the background grows to 111 characters and [chunk_size -
    len(background)] is 89, not 100; the width handed to the splitter is
    the clamped 100. With a 100-character ancestor the first stage already
    truncates; the second keeps [100 - 30 = 70] characters, more than the
    68 that are left, and [chunk_size - len(background)] stays at 93. *)
Theorem shrink_misses_floor :
  let p := new_processor 200 200 80 in
  let e := Entry (lit "Some body text.") (Some (lit "Methods"))
             [lit "Intro"] None in
  let a80 := Entry (repeat "a"%char 80) (Some (lit "Intro")) [] None in
  let a100 := Entry (repeat "a"%char 100) (Some (lit "Intro")) [] None in
  let b80 := (entry_budget p e [a80; e]).1 in
  let b100 := (entry_budget p e [a100; e]).1 in
  (build_hierarchical_background p e [a80; e]).1.2 = false
  /\ Py.len (build_hierarchical_background p e [a80; e]).1.1 = 107
  /\ Py.len (background b80) = 111
  /\ chunk_size_cfg p - Py.len (background b80) = 89
  /\ available_chars b80 = 100
  /\ (build_hierarchical_background p e [a100; e]).1.2 = true
  /\ Py.len (build_hierarchical_background p e [a100; e]).1.1 = 107
  /\ Py.len (background b100) = 107
  /\ chunk_size_cfg p - Py.len (background b100) = 93
  /\ available_chars b100 = 100.
Proof. vm_compute. repeat split. Qed.

End Shrink.

(** ** The splitter on content that fits *)
Section NoSplit.

(** C4 as stated fails: content that fits is returned as it is, with its
    leading and trailing whitespace. *)
Lemma fitting_content_not_trimmed :
  ~ (forall (p : processor) (content : str) (avail : Z),
       Py.len content <= avail ->
       split_content_with_overlap p content avail = [Py.strip content]).
Proof.
  intros H. specialize (H (new_processor 5000 200 2000) (lit " a ") 5).
  vm_compute in H. specialize (H ltac:(discriminate)). discriminate.
Qed.

(** C4, amended. Content no longer than [available_chars] comes back as
    exactly one segment, the content itself, unchanged; that segment is
    the trimmed content exactly when the content has no leading or
    trailing whitespace. *)
Theorem fitting_content_unchanged (p : processor) (content : str) (avail : Z) :
  Py.len content <= avail ->
  split_content_with_overlap p content avail = [content]
  /\ (split_content_with_overlap p content avail = [Py.strip content]
      <-> Py.strip content = content).
Proof.
  intros H. unfold split_content_with_overlap.
  rewrite (proj2 (Z.leb_le _ _) H). split; [reflexivity|].
  split; [intros Heq; now injection Heq | intros ->; reflexivity].
Qed.

Lemma fitting_content_unchanged_witness :
  Py.len (lit " a ") <= 5
  /\ split_content_with_overlap (new_processor 5000 200 2000) (lit " a ") 5
     = [lit " a "].
Proof.
  assert (Py.len (lit " a ") <= 5) as H by (vm_compute; discriminate).
  split; [exact H|].
  exact (proj1 (fitting_content_unchanged (new_processor 5000 200 2000)
                  (lit " a ") 5 H)).
Defined.

End NoSplit.

(** ** Whitespace trimming *)

Section Strip.

Lemma lstrip_decomp s : exists pre, s = pre ++ Py.lstrip s /\ all_space pre.
Proof.
  induction s as [|c s [pre [Hs Hpre]]]; [exists []; split; [reflexivity | constructor]|].
  cbn [Py.lstrip]. destruct (Py.isspace c) eqn:Hc.
  - exists (c :: pre). split; [cbn; now f_equal | now constructor].
  - exists []. split; [reflexivity | constructor].
Qed.

Lemma lstrip_no_lead s : no_lead (Py.lstrip s).
Proof.
  induction s as [|c s IH]; [exact I|]. cbn [Py.lstrip].
  destruct (Py.isspace c) eqn:Hc; [exact IH | exact Hc].
Qed.

Lemma lstrip_id s : no_lead s -> Py.lstrip s = s.
Proof. destruct s as [|c s]; [reflexivity|]. cbn. now intros ->. Qed.

Lemma lstrip_space_app pre s : all_space pre -> Py.lstrip (pre ++ s) = Py.lstrip s.
Proof.
  induction 1 as [|c pre Hc _ IH]; [reflexivity|]. cbn. now rewrite Hc.
Qed.

Lemma lstrip_nil_iff s : Py.lstrip s = [] <-> all_space s.
Proof.
  split.
  - intros H. destruct (lstrip_decomp s) as [pre [Hs Hpre]].
    rewrite H, app_nil_r in Hs. now subst.
  - intros H. rewrite <- (app_nil_r s). now rewrite lstrip_space_app.
Qed.

Lemma all_space_rev s : all_space (rev s) <-> all_space s.
Proof.
  unfold all_space. rewrite !Forall_forall. split; intros H c Hc; apply H;
    apply list_elem_of_In; apply list_elem_of_In in Hc;
    [apply -> in_rev | apply <- in_rev]; assumption.
Qed.

Lemma all_space_app a b : all_space (a ++ b) <-> all_space a /\ all_space b.
Proof. apply Forall_app. Qed.

Lemma no_lead_app_l a b : no_lead (a ++ b) -> no_lead a.
Proof. destruct a; [constructor | exact id]. Qed.

Lemma rstrip_decomp s : exists post, s = Py.rstrip s ++ post /\ all_space post.
Proof.
  unfold Py.rstrip. destruct (lstrip_decomp (rev s)) as [pre [Hs Hpre]].
  exists (rev pre). split; [|now apply all_space_rev].
  rewrite <- rev_app_distr, <- Hs. now rewrite rev_involutive.
Qed.

Lemma rstrip_space_app s post :
  all_space post -> Py.rstrip (s ++ post) = Py.rstrip s.
Proof.
  intros H. unfold Py.rstrip. rewrite rev_app_distr, lstrip_space_app;
    [reflexivity | now apply all_space_rev].
Qed.

Lemma rstrip_nil_iff s : Py.rstrip s = [] <-> all_space s.
Proof.
  unfold Py.rstrip. rewrite <- all_space_rev, <- lstrip_nil_iff. split.
  - intros H. apply (f_equal (@rev ascii)) in H. now rewrite rev_involutive in H.
  - now intros ->.
Qed.

Lemma strip_nil_iff s : Py.strip s = [] <-> all_space s.
Proof.
  unfold Py.strip. rewrite lstrip_nil_iff.
  destruct (rstrip_decomp s) as [post [Hs Hpost]]. split.
  - intros H. rewrite Hs. now apply all_space_app.
  - intros H. rewrite Hs in H. now apply all_space_app in H.
Qed.

Lemma strip_space_app s post : all_space post -> Py.strip (s ++ post) = Py.strip s.
Proof. intros H. unfold Py.strip. now rewrite rstrip_space_app. Qed.

Lemma len_lstrip s : Py.len (Py.lstrip s) <= Py.len s.
Proof.
  destruct (lstrip_decomp s) as [pre [Hs _]]. rewrite Hs at 2.
  rewrite len_app. pose proof (len_nonneg pre). lia.
Qed.

Lemma len_strip s : Py.len (Py.strip s) <= Py.len s.
Proof.
  unfold Py.strip. pose proof (len_lstrip (Py.rstrip s)).
  destruct (rstrip_decomp s) as [post [Hs _]]. rewrite Hs at 2.
  rewrite len_app. pose proof (len_nonneg post). lia.
Qed.

(** Trimming is idempotent. *)
Lemma strip_strip s : Py.strip (Py.strip s) = Py.strip s.
Proof.
  assert (Py.rstrip (Py.strip s) = Py.strip s) as Hr.
  { unfold Py.strip at 1 2. unfold Py.rstrip at 1.
    destruct (lstrip_decomp (Py.rstrip s)) as [pre [Hs _]].
    assert (no_lead (rev (Py.lstrip (Py.rstrip s)))) as Hn.
    { apply (no_lead_app_l _ (rev pre)). rewrite <- rev_app_distr, <- Hs.
      unfold Py.rstrip. rewrite rev_involutive. apply lstrip_no_lead. }
    rewrite (lstrip_id _ Hn). apply rev_involutive. }
  unfold Py.strip at 1. rewrite Hr. apply lstrip_id, lstrip_no_lead.
Qed.

Lemma strip_trimmed_nonempty s : Py.strip s <> [] -> trimmed_nonempty (Py.strip s).
Proof. intros H. split; [assumption | apply strip_strip]. Qed.

End Strip.

(** ** Slices *)
Section Slices.

(** A slice with non-negative bounds, by [take] and [drop]. *)
Lemma slice_nonneg {A} (l : list A) lo hi :
  0 <= lo -> 0 <= hi ->
  Py.slice l lo hi = take (Z.to_nat hi - Z.to_nat lo) (drop (Z.to_nat lo) l).
Proof.
  intros Hlo Hhi0. unfold Py.slice, Py.norm_index, Py.len.
  rewrite (proj2 (Z.ltb_ge lo 0)), (proj2 (Z.ltb_ge hi 0)) by lia.
  destruct (Z.le_gt_cases (Z.of_nat (length l)) lo) as [Hge|Hlt].
  { rewrite !drop_ge by lia. now rewrite !take_nil. }
  replace (Z.min lo (Z.of_nat (length l))) with lo by lia.
  destruct (Z.le_gt_cases hi (Z.of_nat (length l))) as [Hhi|Hhi].
  - replace (Z.min hi (Z.of_nat (length l))) with hi by lia. f_equal. lia.
  - replace (Z.min hi (Z.of_nat (length l))) with (Z.of_nat (length l)) by lia.
    rewrite !take_ge; [reflexivity | |]; rewrite length_drop; lia.
Qed.

(** For [0 <= lo <= mid <= hi], [l[lo:hi] = l[lo:mid] + l[mid:hi]]. *)
Lemma slice_split {A} (l : list A) lo mid hi :
  0 <= lo <= mid -> mid <= hi ->
  Py.slice l lo hi = Py.slice l lo mid ++ Py.slice l mid hi.
Proof.
  intros H1 H2. rewrite !slice_nonneg by lia.
  replace (Z.to_nat hi - Z.to_nat lo)%nat
    with ((Z.to_nat mid - Z.to_nat lo) + (Z.to_nat hi - Z.to_nat mid))%nat by lia.
  rewrite <- take_take_drop. f_equal. rewrite drop_drop. do 2 f_equal. lia.
Qed.

Lemma slice_to_end {A} (l : list A) lo hi :
  0 <= lo -> Py.len l <= hi -> Py.slice l lo hi = drop (Z.to_nat lo) l.
Proof.
  intros H1 H2. pose proof (len_nonneg l). rewrite slice_nonneg by lia.
  apply take_ge. rewrite length_drop. unfold Py.len in *. lia.
Qed.

Lemma slice_from_zero {A} (l : list A) hi :
  0 <= hi -> Py.slice l 0 hi = take (Z.to_nat hi) l.
Proof.
  intros H. rewrite slice_nonneg by lia. cbn [Z.to_nat]. rewrite drop_0.
  f_equal. lia.
Qed.

Lemma len_slice_le {A} (l : list A) lo hi :
  0 <= lo -> 0 <= hi -> Py.len (Py.slice l lo hi) <= Z.max 0 (hi - lo).
Proof.
  intros H1 H2. rewrite slice_nonneg by lia. unfold Py.len.
  rewrite length_take. lia.
Qed.

End Slices.

(** ** The segments the loop emits *)

Section Segments.

Lemma add_chunk_app chunks x : add_chunk chunks x = chunks ++ add_chunk [] x.
Proof. destruct x; cbn; [now rewrite app_nil_r | reflexivity]. Qed.

Lemma add_chunk_nonempty_l chunks x : chunks <> [] -> add_chunk chunks x <> [].
Proof.
  intros H. rewrite add_chunk_app. intros Heq.
  apply app_eq_nil in Heq as [Heq _]. contradiction.
Qed.

Lemma add_chunk_nonempty_r chunks x : x <> [] -> add_chunk chunks x <> [].
Proof.
  intros H. destruct x; [contradiction|]. cbn. intros Heq.
  apply app_eq_nil in Heq as [_ Heq]. discriminate.
Qed.

Lemma add_chunk_trimmed chunks x :
  Forall trimmed_nonempty chunks ->
  Forall trimmed_nonempty (add_chunk chunks (Py.strip x)).
Proof.
  intros H. destruct (Py.strip x) eqn:Hx; [assumption|]. cbn [add_chunk].
  apply Forall_app. split; [assumption|]. constructor; [|constructor].
  rewrite <- Hx. apply strip_trimmed_nonempty. now rewrite Hx.
Qed.

(** Every segment the loop appends is trimmed and non-empty. *)
Lemma split_loop_trimmed fuel content avail ov : forall start chunks r,
  split_loop fuel content avail ov start chunks = Some r ->
  Forall trimmed_nonempty chunks -> Forall trimmed_nonempty r.
Proof.
  induction fuel as [|fuel IH]; intros start chunks r H Hc; cbn [split_loop] in H;
    destruct (start <? Py.len content); try congruence.
  destruct (_ >=? _).
  - injection H as <-. now apply add_chunk_trimmed.
  - eapply IH; [exact H|]. now apply add_chunk_trimmed.
Qed.

(** The loop result is what the slices of its trace contribute. *)
Lemma split_loop_windows fuel content avail ov : forall start chunks r,
  split_loop fuel content avail ov start chunks = Some r ->
  r = chunks ++ segments_of content (split_windows fuel content avail ov start).
Proof.
  unfold segments_of.
  induction fuel as [|fuel IH]; intros start chunks r H;
    cbn [split_loop split_windows] in *;
    destruct (start <? Py.len content); try discriminate;
    try (injection H as <-; cbn; now rewrite app_nil_r).
  cbn [map concat]. unfold segment_of at 1. cbn [fst snd].
  destruct (_ >=? _).
  - injection H as <-. cbn. now rewrite app_nil_r, add_chunk_app.
  - apply IH in H. now rewrite H, add_chunk_app, app_assoc.
Qed.

Lemma all_space_take_slice (content : str) start e :
  0 <= start <= e ->
  all_space (take (Z.to_nat start) content) ->
  all_space (Py.slice content start e) ->
  all_space (take (Z.to_nat e) content).
Proof.
  intros H H1 H2. rewrite <- slice_from_zero by lia.
  rewrite (slice_split content 0 start e) by lia.
  apply all_space_app. split; [|assumption].
  now rewrite slice_from_zero by lia.
Qed.

Lemma seen_all_nonempty (content : str) pos (chunks : list str) :
  Py.len content <= pos ->
  chunks <> [] \/ all_space (take (Z.to_nat pos) content) ->
  ~ all_space content -> chunks <> [].
Proof.
  intros Hpos [H|H] Hne; [assumption|]. exfalso. apply Hne.
  rewrite take_ge in H; [assumption | unfold Py.len in *; lia].
Qed.

(** While nothing was emitted, everything before [start] is whitespace;
    so content with a non-whitespace character yields a segment. *)
Lemma split_loop_nonempty fuel content avail ov : forall start chunks r,
  0 < avail -> 0 <= ov -> 0 <= start ->
  split_loop fuel content avail ov start chunks = Some r ->
  chunks <> [] \/ all_space (take (Z.to_nat start) content) ->
  ~ all_space content -> r <> [].
Proof.
  induction fuel as [|fuel IH]; intros start chunks r Ha Hov Hs H Hinv Hne;
    cbn [split_loop] in H;
    destruct (Z.ltb_spec start (Py.len content)) as [Hlt|Hge]; try discriminate;
    try (injection H as <-; now apply (seen_all_nonempty content start)).
  pose proof (cut_end_bounds content avail start Ha) as He.
  set (e := cut_end content avail start) in *.
  assert (add_chunk chunks (Py.strip (Py.slice content start e)) <> []
          \/ all_space (take (Z.to_nat e) content)) as K.
  { destruct Hinv as [Hinv|Hinv]; [left; now apply add_chunk_nonempty_l|].
    destruct (Py.strip (Py.slice content start e)) eqn:Hx.
    - right. apply strip_nil_iff in Hx.
      apply (all_space_take_slice content start e); [lia | assumption..].
    - left. now apply add_chunk_nonempty_r. }
  destruct (Z.geb_spec e (Py.len content)) as [Hend|Hend].
  - injection H as <-. now apply (seen_all_nonempty content e).
  - pose proof (next_start_gt ov start e).
    pose proof (next_start_le ov start e Hov ltac:(lia)).
    eapply IH; [exact Ha | exact Hov | | exact H | | exact Hne]; [lia|].
    destruct K as [K|K]; [now left | right].
    replace (Z.to_nat (next_start ov start e))
      with (Z.to_nat (next_start ov start e) `min` Z.to_nat e)%nat by lia.
    rewrite <- take_take. now apply Forall_take.
Qed.

(** C5 as stated fails: ten spaces with [available_chars = 5] give no
    segment at all, and three spaces give the whitespace-only segment
    itself. *)
Lemma whitespace_content_counterexample :
  ~ (forall (p : processor) (content : str) (avail : Z),
       0 < avail ->
       split_content_with_overlap p content avail <> [])
  /\ ~ (forall (p : processor) (content : str) (avail : Z),
       0 < avail ->
       Forall (fun s => Py.strip s <> [])
              (split_content_with_overlap p content avail)).
Proof.
  split; intros H.
  - apply (H (new_processor 5000 200 2000) (repeat " "%char 10) 5);
      [lia | reflexivity].
  - specialize (H (new_processor 5000 200 2000) (repeat " "%char 3) 5
                  ltac:(lia)).
    apply Forall_inv in H. apply H. reflexivity.
Qed.

(** C5, amended. For content with at least one non-whitespace character,
    a positive [available_chars] and a non-negative overlap, the sequence
    returned is non-empty and no segment of it is empty after trimming.
    When the content is longer than [available_chars], the segments are
    exactly the trimmed slices of the loop that are not empty, in order:
    each one is non-empty and already trimmed, and a zero-length or
    whitespace-only slice contributes nothing. *)
Theorem split_segments_nonempty (p : processor) (content : str) (avail : Z) :
  0 < avail -> 0 <= overlap_size p -> Py.strip content <> [] ->
  let segs := split_content_with_overlap p content avail in
  segs <> []
  /\ Forall (fun s => Py.strip s <> []) segs
  /\ (avail < Py.len content ->
      Forall trimmed_nonempty segs
      /\ segs = segments_of content
                  (split_windows (length content) content avail
                     (overlap_size p) 0)).
Proof.
  intros Ha Hov Hne segs. subst segs. unfold split_content_with_overlap.
  destruct (Z.leb_spec (Py.len content) avail) as [Hfit|Hlong].
  - split; [discriminate|]. split; [|lia].
    constructor; [assumption | constructor].
  - destruct (split_loop_enough_fuel (length content) content avail
                (overlap_size p) 0 []) as [r Hr]; [unfold Py.len; lia|].
    rewrite Hr. cbn [default].
    pose proof (split_loop_trimmed _ _ _ _ _ _ _ Hr (Forall_nil_2 _)) as Ht.
    split; [|split; [|intros _; split]].
    + eapply split_loop_nonempty; [exact Ha | exact Hov | | exact Hr | |]; [lia| |].
      * right. constructor.
      * intros Hall. now apply strip_nil_iff in Hall.
    + eapply Forall_impl; [exact Ht|]. intros s [Hs1 Hs2]. now rewrite Hs2.
    + exact Ht.
    + now apply split_loop_windows in Hr.
Qed.

Lemma split_segments_nonempty_witness :
  let p := new_processor 5000 2 2000 in
  split_content_with_overlap p (lit "abcdefg hijklmnop") 10 <> []
  /\ Forall (fun s => Py.strip s <> [])
       (split_content_with_overlap p (lit "abcdefg hijklmnop") 10).
Proof.
  intros p.
  pose proof (split_segments_nonempty p (lit "abcdefg hijklmnop") 10
                ltac:(lia) ltac:(vm_compute; discriminate)
                ltac:(vm_compute; discriminate)) as H.
  exact (conj (proj1 H) (proj1 (proj2 H))).
Defined.

End Segments.

(** ** Coverage *)

Section Coverage.

Lemma drop_last_app {A} (a b : list A) n :
  Py.len b = n -> drop_last n (a ++ b) = a.
Proof.
  intros H. unfold drop_last, Py.len in *. rewrite length_app.
  replace (length a + length b - Z.to_nat n)%nat with (length a) by lia.
  now rewrite take_app_length.
Qed.

Lemma len_slice_inside {A} (l : list A) lo hi :
  0 <= lo <= hi -> hi <= Py.len l -> Py.len (Py.slice l lo hi) = hi - lo.
Proof.
  intros H1 H2. rewrite slice_nonneg by lia. unfold Py.len in *.
  rewrite length_take, length_drop. lia.
Qed.

Lemma slice_then_rest {A} (l : list A) lo mid :
  0 <= lo <= mid ->
  Py.slice l lo mid ++ drop (Z.to_nat mid) l = drop (Z.to_nat lo) l.
Proof.
  intros H. rewrite slice_nonneg by lia.
  replace (Z.to_nat mid) with (Z.to_nat lo + (Z.to_nat mid - Z.to_nat lo))%nat
    at 2 by lia.
  rewrite <- drop_drop. apply take_drop.
Qed.

Lemma split_windows_head fuel content avail ov start :
  start < Py.len content ->
  exists rest,
    split_windows (S fuel) content avail ov start
    = (start, cut_end content avail start) :: rest.
Proof.
  intros H. cbn [split_windows]. rewrite (proj2 (Z.ltb_lt _ _) H).
  eexists. reflexivity.
Qed.

(** Stitching the slices taken from [start] on gives the content from
    [start] on. *)
Lemma stitch_windows fuel content avail ov : forall start,
  0 < avail -> 0 <= ov -> 0 <= start ->
  (Z.to_nat (Py.len content - start) <= fuel)%nat ->
  stitch content (split_windows fuel content avail ov start)
  = drop (Z.to_nat start) content.
Proof.
  induction fuel as [|fuel IH]; intros start Ha Hov Hs Hf; cbn [split_windows];
    destruct (Z.ltb_spec start (Py.len content)) as [Hlt|Hge];
    try (cbn [stitch]; rewrite drop_ge; [reflexivity | unfold Py.len in *; lia]).
  pose proof (cut_end_bounds content avail start Ha) as He.
  set (e := cut_end content avail start) in *.
  destruct (Z.geb_spec e (Py.len content)) as [Hend|Hend].
  - cbn [stitch]. apply slice_to_end; lia.
  - pose proof (next_start_gt ov start e) as Hgt.
    pose proof (next_start_le ov start e Hov ltac:(lia)) as Hle.
    set (s' := next_start ov start e) in *.
    assert (Z.to_nat (Py.len content - s') <= fuel)%nat as Hf' by lia.
    specialize (IH s' Ha Hov ltac:(lia) Hf').
    destruct fuel as [|fuel]; [lia|].
    destruct (split_windows_head fuel content avail ov s' ltac:(lia))
      as [rest Hrest].
    rewrite Hrest in *. cbn [stitch] in *. rewrite IH.
    rewrite (slice_split content start s' e) by lia.
    rewrite drop_last_app by (apply len_slice_inside; lia).
    apply slice_then_rest. lia.
Qed.

(** Consecutive slices of the trace are chained. *)
Lemma split_windows_chained fuel content avail ov : forall start,
  0 < avail -> 0 <= ov ->
  Forall (chained content ov)
         (adjacent (split_windows fuel content avail ov start)).
Proof.
  induction fuel as [|fuel IH]; intros start Ha Hov; cbn [split_windows];
    destruct (Z.ltb_spec start (Py.len content)) as [Hlt|Hge];
    try constructor.
  pose proof (cut_end_bounds content avail start Ha) as He.
  set (e := cut_end content avail start) in *.
  destruct (Z.geb_spec e (Py.len content)) as [Hend|Hend]; [constructor|].
  specialize (IH (next_start ov start e) Ha Hov).
  destruct (split_windows fuel content avail ov (next_start ov start e))
    as [|[s' e'] rest] eqn:Hw; [constructor|].
  cbn [adjacent]. constructor; [|exact IH].
  assert (s' = next_start ov start e) as ->.
  { destruct fuel; cbn [split_windows] in Hw;
      destruct (_ <? _); try discriminate. now injection Hw. }
  unfold chained. pose proof (next_start_gt ov start e).
  pose proof (next_start_le ov start e Hov ltac:(lia)).
  repeat split; try lia. unfold next_start. lia.
Qed.

(** C6 as stated fails, even when all whitespace is disregarded: with
    [available_chars = 10] and an overlap of 2 the text
    ["abcdefg hijklmnop"] is split into ["abcdefg"], ["g"] and
    ["hijklmnop"]; removing two trailing characters from the first two
    segments loses ["f"] and ["g"]. *)
Lemma reconstruction_counterexample :
  ~ (forall (p : processor) (content : str) (avail : Z),
       0 < avail -> 0 <= overlap_size p -> avail < Py.len content ->
       remove_space
         (reconstruct (overlap_size p)
            (split_content_with_overlap p content avail))
       = remove_space content).
Proof.
  intros H.
  specialize (H (new_processor 5000 2 2000) (lit "abcdefg hijklmnop") 10
                ltac:(lia) ltac:(vm_compute; discriminate)
                ltac:(vm_compute; reflexivity)).
  vm_compute in H. discriminate.
Qed.

(** C6, amended. For content longer than a positive [available_chars]
    and a non-negative overlap, the untrimmed slices [content[start:end]]
    of the loop cover the content without gaps: concatenating them, after
    removing from each slice but the last the characters it shares with
    the next one, gives back the content exactly. Two consecutive slices
    share [end - next_start = min(overlap, end - start - 1)] characters,
    which is not always [overlap]; the segments returned are these slices
    trimmed, the empty ones dropped. *)
Theorem slices_cover_content (p : processor) (content : str) (avail : Z) :
  0 < avail -> 0 <= overlap_size p -> avail < Py.len content ->
  let ws := split_windows (length content) content avail (overlap_size p) 0 in
  stitch content ws = content
  /\ Forall (chained content (overlap_size p)) (adjacent ws)
  /\ split_content_with_overlap p content avail = segments_of content ws.
Proof.
  intros Ha Hov Hlong ws. subst ws. split; [|split].
  - rewrite stitch_windows; [apply drop_0 | lia.. | unfold Py.len; lia].
  - now apply split_windows_chained.
  - unfold split_content_with_overlap.
    rewrite (proj2 (Z.leb_gt _ _) Hlong).
    destruct (split_loop_enough_fuel (length content) content avail
                (overlap_size p) 0 []) as [r Hr]; [unfold Py.len; lia|].
    rewrite Hr. cbn [default]. now apply split_loop_windows in Hr.
Qed.

Lemma slices_cover_content_witness :
  let p := new_processor 5000 2 2000 in
  let content := lit "abcdefg hijklmnop" in
  stitch content (split_windows (length content) content 10 (overlap_size p) 0)
  = content.
Proof.
  intros p content.
  exact (proj1 (slices_cover_content p content 10
                  ltac:(lia) ltac:(vm_compute; discriminate)
                  ltac:(vm_compute; reflexivity))).
Defined.

End Coverage.

(** ** The content floor *)
Section Floor.

Ltac search_cases :=
  repeat match goal with
  | |- context [rsearch ?t ?hi ?lo] =>
      let H := fresh "H" in
      let T := fresh "T" in
      destruct (rsearch t hi lo) eqn:H; [apply rsearch_spec in H as [H T]|]
  | |- context [Z.eqb ?a ?b] => destruct (Z.eqb_spec a b)
  end.

(** The break point exceeds the tentative [end] only for a paragraph
    break that starts at [end - 1]. *)
Lemma find_break_point_cases content start e :
  start < e ->
  find_break_point content start e <= e
  \/ (find_break_point content start e = e + 1 /\ start < e - 1
      /\ is_paragraph_break content (e - 1) = true).
Proof.
  intros Hse. unfold find_break_point. search_cases;
    first [ left; lia
          | match goal with
            | T : is_paragraph_break _ ?z = true |- _ =>
                destruct (decide (z = e - 1)) as [->|];
                [right; repeat split; [lia | lia | exact T] | left; lia]
            end ].
Qed.

(** A trimmed slice of the loop is never longer than [available_chars]. *)
Lemma segment_len_le content avail start :
  0 < avail -> 0 <= start ->
  Py.len (Py.strip (Py.slice content start (cut_end content avail start)))
  <= avail.
Proof.
  intros Ha Hs. pose proof (cut_end_bounds content avail start Ha) as Hb.
  unfold cut_end in *.
  destruct (Z.ltb_spec (start + avail) (Py.len content)) as [Hlt|Hge].
  - destruct (find_break_point_cases content start (start + avail) ltac:(lia))
      as [Hle|[Heq [Hlo Hpar]]].
    + etransitivity; [apply len_strip|].
      etransitivity; [apply len_slice_le; lia|]. lia.
    + rewrite Heq.
      rewrite (slice_split content start (start + avail - 1)) by lia.
      unfold is_paragraph_break in Hpar. apply bool_decide_eq_true_1 in Hpar.
      replace (start + avail - 1 + 2) with (start + avail + 1) in Hpar by lia.
      rewrite Hpar, strip_space_app by (repeat constructor).
      etransitivity; [apply len_strip|].
      etransitivity; [apply len_slice_le; lia|]. lia.
  - etransitivity; [apply len_strip|].
    etransitivity; [apply len_slice_le; lia|]. lia.
Qed.

Lemma split_loop_len_le fuel content avail ov : forall start chunks r,
  0 < avail -> 0 <= start ->
  split_loop fuel content avail ov start chunks = Some r ->
  Forall (fun s => Py.len s <= avail) chunks ->
  Forall (fun s => Py.len s <= avail) r.
Proof.
  induction fuel as [|fuel IH]; intros start chunks r Ha Hs H Hc;
    cbn [split_loop] in H; destruct (start <? Py.len content); try congruence.
  assert (Forall (fun s => Py.len s <= avail)
            (add_chunk chunks
               (Py.strip (Py.slice content start (cut_end content avail start)))))
    as Hc'.
  { rewrite add_chunk_app. apply Forall_app. split; [assumption|].
    pose proof (segment_len_le content avail start Ha Hs) as Hl.
    destruct (Py.strip _); cbn [add_chunk app]; repeat constructor. exact Hl. }
  destruct (_ >=? _); [congruence|].
  eapply IH; [exact Ha | | exact H | exact Hc'].
  pose proof (next_start_gt ov start (cut_end content avail start)). lia.
Qed.

(** Every segment returned fits the width, and comes from a non-empty
    trimmed slice when the content was split. *)
Lemma split_segments_bounds p content avail :
  0 < avail ->
  Forall (fun s => Py.len s <= avail) (split_content_with_overlap p content avail)
  /\ (avail < Py.len content ->
      Forall (fun s => 0 < Py.len s) (split_content_with_overlap p content avail)).
Proof.
  intros Ha. unfold split_content_with_overlap.
  destruct (Z.leb_spec (Py.len content) avail) as [Hfit|Hlong].
  - split; [repeat constructor; assumption | intros; lia].
  - destruct (split_loop_enough_fuel (length content) content avail
                (overlap_size p) 0 []) as [r Hr]; [unfold Py.len; lia|].
    rewrite Hr. cbn [default]. split.
    + eapply split_loop_len_le; [exact Ha | | exact Hr | constructor]. lia.
    + intros _. pose proof (split_loop_trimmed _ _ _ _ _ _ _ Hr (Forall_nil_2 _)) as Ht.
      eapply Forall_impl; [exact Ht|]. intros s [Hs _].
      pose proof (len_nonneg s).
      destruct (Z.eq_dec (Py.len s) 0) as [Hz|]; [|lia].
      now apply len_nil_iff in Hz.
Qed.

Lemma assembled_content_sizes b segs chunks :
  Forall2 (assembled b) segs chunks ->
  map (fun c => content_size (metadata c)) chunks = map Py.len segs.
Proof.
  induction 1 as [|seg c segs chunks [_ [_ [_ Hk]]] _ IH]; [reflexivity|].
  cbn [map]. now rewrite Hk, IH.
Qed.

(** C3 as stated fails: with [chunk_size = 300] and an overlap of 20, an
    entry of 310 characters gives a second chunk whose content segment
    has 30 characters. *)
Lemma short_segment_counterexample :
  ~ (forall (p : processor) (e : entry) (all : list entry) (f : str),
       min_content_size <= Py.len (content e) ->
       Forall (fun c => min_content_size <= content_size (metadata c))
              (create_chunks_from_entry p e all f).1).
Proof.
  intros H.
  set (e := Entry (repeat "x"%char 310) (Some (lit "T")) [] None).
  specialize (H (new_processor 300 20 120) e [e] (lit "doc.json")
                ltac:(vm_compute; discriminate)).
  apply Forall_cons_1 in H as [_ H]. apply Forall_inv in H.
  vm_compute in H. now apply H.
Qed.

(** C3, amended. The floor holds for the width, not for every segment:
    the [available_chars] handed to the splitter is at least
    [min_content_size = 100], and every content segment emitted is at
    most that long. An entry whose content fits the width gives a single
    chunk whose content segment is the whole content, hence of at least
    100 characters whenever the content has that many. A longer content
    gives non-empty segments only. *)
Theorem content_floor (p : processor) (e : entry) (all : list entry) (f : str) :
  let b := (entry_budget p e all).1 in
  let chunks := (create_chunks_from_entry p e all f).1 in
  min_content_size <= available_chars b
  /\ Forall (fun c => content_size (metadata c) <= available_chars b) chunks
  /\ (Py.len (content e) <= available_chars b ->
      map (fun c => content_size (metadata c)) chunks = [Py.len (content e)])
  /\ (min_content_size <= Py.len (content e) <= available_chars b ->
      Forall (fun c => min_content_size <= content_size (metadata c)) chunks)
  /\ (available_chars b < Py.len (content e) ->
      Forall (fun c => 0 < content_size (metadata c)) chunks).
Proof.
  intros b chunks.
  pose proof (entry_budget_floor p e all) as Hfloor. fold b in Hfloor.
  pose proof (create_chunks_assembled p e all f) as Hasm. cbn zeta in Hasm.
  fold b chunks in Hasm.
  apply assembled_content_sizes in Hasm.
  set (q := (entry_budget p e all).2) in *.
  assert (0 < available_chars b) as Hpos by (unfold min_content_size in *; lia).
  destruct (split_segments_bounds q (content e) (available_chars b) Hpos)
    as [Hle Hpos'].
  assert (forall P : Z -> Prop,
            Forall P (map Py.len
                        (split_content_with_overlap q (content e) (available_chars b))) ->
            Forall (fun c => P (content_size (metadata c))) chunks) as Hmap.
  { intros P HP. rewrite <- Hasm in HP.
    exact (proj1 (List.Forall_map _ P chunks) HP). }
  assert (Py.len (content e) <= available_chars b ->
          map (fun c => content_size (metadata c)) chunks = [Py.len (content e)])
    as Hfit.
  { intros Hfit. rewrite Hasm. unfold split_content_with_overlap.
    now rewrite (proj2 (Z.leb_le _ _) Hfit). }
  split; [exact Hfloor|]. split; [|split; [exact Hfit|split]].
  - apply (Hmap (fun n => n <= available_chars b)).
    now apply List.Forall_map.
  - intros [Hmin Hfit']. apply (Hmap (fun n => min_content_size <= n)).
    rewrite <- Hasm, (Hfit Hfit'). repeat constructor. exact Hmin.
  - intros Hlong. apply (Hmap (fun n => 0 < n)).
    apply List.Forall_map. now apply Hpos'.
Qed.

End Floor.


(** * Further properties of the engine *)

(** ** The sanitised title *)
Section CleanTitle.

Lemma strip_decomp s :
  exists pre post, s = pre ++ Py.strip s ++ post.
Proof.
  destruct (rstrip_decomp s) as [post [Hs _]].
  destruct (lstrip_decomp (Py.rstrip s)) as [pre [Hr _]].
  exists pre, post. unfold Py.strip. rewrite app_assoc, <- Hr. exact Hs.
Qed.




End CleanTitle.

(** ** The hierarchy cache is a pure optimisation *)
Section Cache.

Lemma cache_consistent_empty all : cache_consistent all ∅.
Proof. intros h v H. rewrite lookup_empty in H. discriminate. Qed.

Lemma collect_step_consistent all cache parts h :
  cache_consistent all cache ->
  cache_consistent all (collect_step all (cache, parts) h).1
  /\ (collect_step all (cache, parts) h).2
     = parts ++ option_list (resolve all h).
Proof.
  intros Hc. unfold collect_step.
  destruct (cache !! h) as [v|] eqn:Hl.
  - rewrite (Hc h v Hl). split; [exact Hc | reflexivity].
  - unfold resolve. destruct (find_entry h all) as [e'|] eqn:Hf.
    + split; [|reflexivity]. cbn [fst]. intros k w Hk.
      destruct (decide (h = k)) as [<-|Hne].
      * rewrite lookup_insert_eq in Hk. injection Hk as <-.
        unfold resolve. now rewrite Hf.
      * rewrite lookup_insert_ne in Hk by assumption. now apply Hc.
    + split; [exact Hc | cbn; now rewrite app_nil_r].
Qed.

Lemma collect_fold_consistent all hs : forall cache parts,
  cache_consistent all cache ->
  cache_consistent all (fold_left (collect_step all) hs (cache, parts)).1
  /\ (fold_left (collect_step all) hs (cache, parts)).2
     = parts ++ omap (resolve all) hs.
Proof.
  induction hs as [|h hs IH]; intros cache parts Hc.
  - split; [exact Hc | cbn; now rewrite app_nil_r].
  - cbn [fold_left].
    destruct (collect_step_consistent all cache parts h Hc) as [Hc1 Hp1].
    destruct (collect_step all (cache, parts) h) as [cache1 parts1].
    cbn [fst snd] in *. destruct (IH cache1 parts1 Hc1) as [Hc2 Hp2].
    split; [exact Hc2|]. rewrite Hp2, Hp1, <- app_assoc. f_equal.
    cbn [omap list_omap]. now destruct (resolve all h).
Qed.

(** X2. With a cache that only holds what the document resolves (the
    empty cache, or any cache the engine built on this document), the
    bodies collected for an entry are the resolutions of its ancestor
    titles, in hierarchy order, unresolved titles left out; the
    background is the one an empty cache gives; and the cache stays
    consistent. *)
Theorem background_cache_transparent (p : processor) (e : entry)
    (all : list entry) :
  cache_consistent all (hierarchy_cache p) ->
  collected_parts p e all = omap (resolve all) (hierarchy e)
  /\ (build_hierarchical_background p e all).1
     = (build_hierarchical_background (set_cache p ∅) e all).1
  /\ cache_consistent all
       (hierarchy_cache (build_hierarchical_background p e all).2).
Proof.
  intros Hc.
  destruct (collect_fold_consistent all (hierarchy e) (hierarchy_cache p) [] Hc)
    as [Hc' Hp].
  destruct (collect_fold_consistent all (hierarchy e) ∅ []
              (cache_consistent_empty all)) as [_ Hp0].
  split; [exact Hp|]. split.
  - rewrite !build_background_unfold. unfold collected_parts, collect_background.
    cbn [hierarchy_cache set_cache max_background_size].
    now rewrite Hp, Hp0.
  - unfold build_hierarchical_background, collect_background.
    destruct (fold_left (collect_step all) (hierarchy e) (hierarchy_cache p, []))
      as [cache parts]. exact Hc'.
Qed.

Lemma background_cache_transparent_witness :
  let a := Entry (lit " Opening words. ") (Some (lit "Intro")) [] None in
  let e := Entry (lit "body") (Some (lit "Methods"))
             [lit "Ghost"; lit "Intro"] None in
  collected_parts (new_processor 5000 200 2000) e [a; e]
  = omap (resolve [a; e]) (hierarchy e).
Proof.
  intros a e.
  exact (proj1 (background_cache_transparent (new_processor 5000 200 2000)
                  e [a; e] (cache_consistent_empty [a; e]))).
Defined.

Lemma entry_budget_same p q e all :
  same_but_cache p q ->
  cache_consistent all (hierarchy_cache p) ->
  cache_consistent all (hierarchy_cache q) ->
  (entry_budget p e all).1 = (entry_budget q e all).1
  /\ same_but_cache (entry_budget p e all).2 (entry_budget q e all).2
  /\ cache_consistent all (hierarchy_cache (entry_budget p e all).2).
Proof.
  intros (Hcs & Hov & Hmb & Hctr) Hp Hq.
  destruct (collect_fold_consistent all (hierarchy e) (hierarchy_cache p) [] Hp)
    as [Hp' Hpp].
  destruct (collect_fold_consistent all (hierarchy e) (hierarchy_cache q) [] Hq)
    as [_ Hqp].
  unfold entry_budget, build_hierarchical_background, collect_background.
  destruct (fold_left (collect_step all) (hierarchy e) (hierarchy_cache p, []))
    as [cache1 parts1].
  destruct (fold_left (collect_step all) (hierarchy e) (hierarchy_cache q, []))
    as [cache2 parts2].
  cbn [fst snd] in *. subst parts1 parts2.
  cbn [chunk_size_cfg set_cache hierarchy_cache]. rewrite Hcs, Hmb.
  repeat split; assumption.
Qed.

Lemma assemble_chunks_same segs : forall p q b f t fp i,
  same_but_cache p q ->
  (assemble_chunks p b f t fp i segs).1 = (assemble_chunks q b f t fp i segs).1
  /\ same_but_cache (assemble_chunks p b f t fp i segs).2
                    (assemble_chunks q b f t fp i segs).2
  /\ hierarchy_cache (assemble_chunks p b f t fp i segs).2 = hierarchy_cache p.
Proof.
  induction segs as [|seg segs IH]; intros p q b f t fp i Hpq.
  - repeat split; apply Hpq.
  - cbn [assemble_chunks]. unfold generate_chunk_id.
    destruct Hpq as (Hcs & Hov & Hmb & Hctr).
    specialize (IH (set_counter p (global_chunk_counter p + 1))
                   (set_counter q (global_chunk_counter q + 1)) b f t fp (S i)).
    destruct IH as (IH1 & IH2 & IH3).
    { repeat split; cbn; congruence. }
    destruct (assemble_chunks (set_counter p _) b f t fp (S i) segs) as [cs1 p1].
    destruct (assemble_chunks (set_counter q _) b f t fp (S i) segs) as [cs2 p2].
    cbn [fst snd] in *. subst cs2. rewrite Hctr.
    repeat split; try apply IH2. exact IH3.
Qed.

Lemma create_chunks_same p q e all f :
  same_but_cache p q ->
  cache_consistent all (hierarchy_cache p) ->
  cache_consistent all (hierarchy_cache q) ->
  (create_chunks_from_entry p e all f).1 = (create_chunks_from_entry q e all f).1
  /\ same_but_cache (create_chunks_from_entry p e all f).2
                    (create_chunks_from_entry q e all f).2
  /\ cache_consistent all
       (hierarchy_cache (create_chunks_from_entry p e all f).2).
Proof.
  intros Hpq Hp Hq. unfold create_chunks_from_entry.
  destruct (entry_budget_same p q e all Hpq Hp Hq) as (Hb & Hs & Hc).
  destruct (entry_budget p e all) as [b1 p1].
  destruct (entry_budget q e all) as [b2 p2].
  cbn [fst snd] in *. subst b2.
  replace (split_content_with_overlap p2 (content e) (available_chars b1))
    with (split_content_with_overlap p1 (content e) (available_chars b1)).
  2:{ unfold split_content_with_overlap. destruct Hs as (_ & -> & _). reflexivity. }
  destruct (assemble_chunks_same
              (split_content_with_overlap p1 (content e) (available_chars b1))
              p1 p2 b1 f (default (lit "Unknown") (title e))
              (default (default (lit "Unknown") (title e)) (full_path e)) 0 Hs)
    as (H1 & H2 & H3).
  repeat split; try assumption; try apply H2. now rewrite H3.
Qed.

Lemma process_entries_same todo : forall p q all f,
  same_but_cache p q ->
  cache_consistent all (hierarchy_cache p) ->
  (process_entries p todo all f).1 = (process_entries_uncached q todo all f).1
  /\ same_but_cache (process_entries p todo all f).2
                    (process_entries_uncached q todo all f).2.
Proof.
  induction todo as [|e todo IH]; intros p q all f Hpq Hp.
  - split; [reflexivity | exact Hpq].
  - cbn [process_entries process_entries_uncached].
    destruct (create_chunks_same p (set_cache q ∅) e all f) as (H1 & H2 & H3);
      [exact Hpq | exact Hp | apply cache_consistent_empty |].
    destruct (create_chunks_from_entry p e all f) as [cs1 p1].
    destruct (create_chunks_from_entry (set_cache q ∅) e all f) as [cs2 q1].
    cbn [fst snd] in *. subst cs2.
    destruct (IH p1 q1 all f H2 H3) as [IH1 IH2].
    destruct (process_entries p1 todo all f) as [m1 p2].
    destruct (process_entries_uncached q1 todo all f) as [m2 q2].
    cbn [fst snd] in *. now subst m2.
Qed.

(** X3. Within a document the cache never changes a result: the chunks
    [process_json_file] writes are those obtained when the cache is
    emptied before every entry, and the counter ends at the same value. *)
Theorem cache_is_transparent (p : processor) (input_file : str)
    (entries : list entry) :
  (process_json_file p input_file entries).1
  = (process_entries_uncached p entries entries (basename input_file)).1
  /\ global_chunk_counter (process_json_file p input_file entries).2
     = global_chunk_counter
         (process_entries_uncached p entries entries (basename input_file)).2.
Proof.
  unfold process_json_file.
  destruct (process_entries_same entries (set_cache p ∅) p entries
              (basename input_file)) as [H1 H2].
  - repeat split.
  - apply cache_consistent_empty.
  - split; [exact H1 | apply H2].
Qed.

End Cache.

(** ** Segments are pieces of the content *)
Section Substrings.

Lemma infix_of_refl s : infix_of s s.
Proof. exists [], []. now rewrite app_nil_r. Qed.

Lemma infix_of_trans a b c : infix_of a b -> infix_of b c -> infix_of a c.
Proof.
  intros [x [y ->]] [u [v ->]]. exists (u ++ x), (y ++ v).
  now rewrite <- !app_assoc.
Qed.

Lemma infix_of_strip s : infix_of (Py.strip s) s.
Proof. destruct (strip_decomp s) as [pre [post Hs]]. now exists pre, post. Qed.

Lemma infix_of_slice (l : str) lo hi : infix_of (Py.slice l lo hi) l.
Proof.
  unfold Py.slice.
  set (a := Z.to_nat (Py.norm_index (Py.len l) lo)).
  set (n := Z.to_nat (_ - _)).
  exists (take a l), (drop n (drop a l)). now rewrite take_drop, take_drop.
Qed.

Lemma split_loop_infix fuel content avail ov : forall start chunks r,
  split_loop fuel content avail ov start chunks = Some r ->
  Forall (fun s => infix_of s content) chunks ->
  Forall (fun s => infix_of s content) r.
Proof.
  induction fuel as [|fuel IH]; intros start chunks r H Hc; cbn [split_loop] in H;
    destruct (start <? Py.len content); try congruence.
  assert (Forall (fun s => infix_of s content)
            (add_chunk chunks
               (Py.strip (Py.slice content start (cut_end content avail start)))))
    as Hc'.
  { rewrite add_chunk_app. apply Forall_app. split; [assumption|].
    destruct (Py.strip _) eqn:Hs; cbn [add_chunk app]; repeat constructor.
    rewrite <- Hs. eapply infix_of_trans; [apply infix_of_strip | apply infix_of_slice]. }
  destruct (_ >=? _); [congruence|]. eapply IH; eassumption.
Qed.

(** X4. The splitter never invents or rearranges text: every segment it
    returns, for any width and any overlap, is a contiguous piece of the
    content. *)
Theorem split_segments_are_substrings (p : processor) (content : str)
    (avail : Z) :
  Forall (fun s => infix_of s content)
         (split_content_with_overlap p content avail).
Proof.
  unfold split_content_with_overlap. destruct (_ <=? _).
  - repeat constructor. apply infix_of_refl.
  - destruct (split_loop _ _ _ _ _ _) as [r|] eqn:Hr; cbn [default];
      [|constructor].
    eapply split_loop_infix; [exact Hr | constructor].
Qed.

End Substrings.

(** ** Where the splitter cuts *)
Section Cuts.

Ltac break_cases :=
  repeat match goal with
  | |- context [rsearch ?t ?hi ?lo] =>
      let H := fresh "H" in
      let T := fresh "T" in
      destruct (rsearch t hi lo) eqn:H; [apply rsearch_spec in H as [H T]|]
  | |- context [Z.eqb ?a ?b] => destruct (Z.eqb_spec a b)
  end.

Lemma is_newline_space content i :
  is_newline content i = true -> is_space content i = true.
Proof.
  unfold is_newline, is_space, char_at. destruct (Py.get content i); [|easy].
  intros H. apply bool_decide_eq_true_1 in H. now subst.
Qed.

Lemma is_paragraph_break_space content i :
  0 <= i -> is_paragraph_break content i = true ->
  is_space content (i + 1) = true.
Proof.
  intros Hi H. unfold is_paragraph_break in H. apply bool_decide_eq_true_1 in H.
  rewrite slice_nonneg in H by lia.
  unfold is_space, char_at, Py.get. rewrite (proj2 (Z.ltb_ge _ _)) by lia.
  replace (Z.to_nat (i + 1)) with (Z.to_nat i + 1)%nat by lia.
  rewrite <- lookup_drop.
  destruct (drop (Z.to_nat i) content) as [|c1 [|c2 rest]];
    try (rewrite take_nil in H; discriminate).
  - destruct (Z.to_nat (i + 2) - Z.to_nat i)%nat as [|[|k]]; discriminate.
  - destruct (Z.to_nat (i + 2) - Z.to_nat i)%nat as [|[|k]]; try discriminate.
    cbn in H. injection H as _ -> _. reflexivity.
Qed.

(** X5. A cut is either the hard cut at [start + available_chars] or it
    falls at a natural boundary after [start + 1]: right after a sentence
    terminator that is followed by whitespace, or right after a
    whitespace character (paragraph break, newline or word boundary). *)
Theorem cut_at_natural_boundary (content : str) (avail start : Z) :
  0 < avail -> 0 <= start ->
  let e := cut_end content avail start in
  e = start + avail
  \/ (start + 1 < e <= start + avail + 1 /\ e <= Py.len content
      /\ (is_sentence_end content (e - 1) = true
          \/ is_space content (e - 1) = true)).
Proof.
  intros Ha Hs. cbn zeta. unfold cut_end.
  destruct (Z.ltb_spec (start + avail) (Py.len content)) as [Hlt|Hge];
    [|now left].
  unfold find_break_point. break_cases; try (now left); right;
    (split; [lia|]); (split; [lia|]).
  all: try (left; match goal with
        | T : is_sentence_end _ ?z = true |- is_sentence_end _ ?y = true =>
            replace y with z by lia; exact T
        end).
  all: right.
  all: try match goal with
        | T : is_paragraph_break _ ?z = true |- is_space _ ?y = true =>
            replace y with (z + 1) by lia;
            apply is_paragraph_break_space; [lia | exact T]
        end.
  all: try match goal with
        | T : is_newline _ ?z = true |- is_space _ ?y = true =>
            replace y with z by lia; apply is_newline_space; exact T
        end.
  all: match goal with
        | T : is_space _ ?z = true |- is_space _ ?y = true =>
            replace y with z by lia; exact T
        end.
Qed.

Lemma cut_at_natural_boundary_witness :
  let content := lit "One. Two! Three? Four five six seven" in
  cut_end content 12 0 = 0 + 12
  \/ (0 + 1 < cut_end content 12 0 <= 0 + 12 + 1
      /\ cut_end content 12 0 <= Py.len content
      /\ (is_sentence_end content (cut_end content 12 0 - 1) = true
          \/ is_space content (cut_end content 12 0 - 1) = true)).
Proof.
  intros content.
  exact (cut_at_natural_boundary content 12 0 ltac:(lia) ltac:(lia)).
Defined.

End Cuts.

(** ** Sentence boundaries come first *)
Section SentencePriority.





End SentencePriority.

(** ** Chunk sizes against the target *)
Section ChunkSize.

Lemma build_background_config p e all :
  same_but_cache (build_hierarchical_background p e all).2 p.
Proof.
  unfold build_hierarchical_background.
  destruct (collect_background all (hierarchy_cache p) (hierarchy e)).
  repeat split.
Qed.

Lemma entry_budget_unfold p e all :
  (entry_budget p e all).1
  = allocate_budget (chunk_size_cfg p) (build_hierarchical_background p e all).1.
Proof.
  unfold entry_budget. pose proof (build_background_config p e all) as (H & _).
  destruct (build_hierarchical_background p e all) as [bg q].
  cbn [fst snd] in *. now rewrite H.
Qed.

(** X7. When the background leaves at least [min_content_size]
    characters of the target size, it is used as built, and every chunk
    of the entry has at most [chunk_size + 2] characters - the two
    characters of the blank line between background and content are not
    budgeted - and at most [chunk_size] when there is no background. *)
Theorem chunk_size_within_target (p : processor) (e : entry)
    (all : list entry) (f : str) :
  let bg := (build_hierarchical_background p e all).1.1 in
  min_content_size <= chunk_size_cfg p - Py.len bg ->
  background (entry_budget p e all).1 = bg
  /\ available_chars (entry_budget p e all).1 = chunk_size_cfg p - Py.len bg
  /\ Forall (fun c =>
       chunk_size (metadata c) <= chunk_size_cfg p + 2
       /\ (bg = [] -> chunk_size (metadata c) <= chunk_size_cfg p))
     (create_chunks_from_entry p e all f).1.
Proof.
  intros bg Hfit.
  pose proof (create_chunks_assembled p e all f) as Hasm. cbn zeta in Hasm.
  pose proof (entry_budget_unfold p e all) as Hb.
  set (b := (entry_budget p e all).1) in *.
  set (q := (entry_budget p e all).2) in *.
  assert (background b = bg
          /\ available_chars b = chunk_size_cfg p - Py.len bg) as [Hbg Hav].
  { rewrite Hb. subst bg. clear Hb Hasm. revert Hfit.
    destruct (build_hierarchical_background p e all).1 as [bg' wt].
    cbn [fst]. intros Hfit. unfold allocate_budget.
    rewrite (proj2 (Z.ltb_ge _ _)) by lia. split; reflexivity. }
  split; [exact Hbg|]. split; [exact Hav|].
  assert (0 < available_chars b) as Hpos
    by (unfold min_content_size in *; lia).
  destruct (split_segments_bounds q (content e) (available_chars b) Hpos)
    as [Hle _].
  apply Forall2_Forall_r in Hasm. eapply Forall_impl; [exact Hasm|].
  intros c [seg [Hin [Hc [Hs _]]]]. cbn beta.
  rewrite Forall_forall in Hle. specialize (Hle seg Hin).
  rewrite Hs, Hc, Hbg. destruct bg as [|x bg'].
  - change (Py.len (@nil ascii)) with 0 in *. split; [lia | intros _; lia].
  - rewrite !len_app. change (Py.len BLANK_LINE) with 2.
    split; [lia | discriminate].
Qed.

Lemma chunk_size_within_target_witness :
  let p := new_processor 130 0 40 in
  let a := Entry (lit "abc") (Some (lit "Intro")) [] None in
  let e := Entry (repeat "x"%char 100) (Some (lit "Methods")) [lit "Intro"] None in
  Forall (fun c => chunk_size (metadata c) <= chunk_size_cfg p + 2
                   /\ ((build_hierarchical_background p e [a; e]).1.1 = [] ->
                       chunk_size (metadata c) <= chunk_size_cfg p))
         (create_chunks_from_entry p e [a; e] (lit "doc.json")).1.
Proof.
  intros p a e.
  exact (proj2 (proj2 (chunk_size_within_target p e [a; e] (lit "doc.json")
                         ltac:(vm_compute; discriminate)))).
Defined.

(** The bound [chunk_size + 2] is reached: target 130, a 30-character
    background, 100 characters of content. *)
Example chunk_size_target_exceeded :
  let p := new_processor 130 0 40 in
  let a := Entry (lit "abc") (Some (lit "Intro")) [] None in
  let e := Entry (repeat "x"%char 100) (Some (lit "Methods")) [lit "Intro"] None in
  map (fun c => chunk_size (metadata c))
      (create_chunks_from_entry p e [a; e] (lit "doc.json")).1
  = [132].
Proof. vm_compute. reflexivity. Qed.

End ChunkSize.

(** ** The second truncation in general *)
Section SecondStage.

Lemma startswith_length s : forall p,
  Py.startswith s p = true -> (length p <= length s)%nat.
Proof.
  induction s as [|d s IH]; intros [|c p] H; cbn in *; try lia; try discriminate.
  apply andb_true_iff in H as [_ H]. apply IH in H. lia.
Qed.

Lemma contains_length s p :
  Py.contains s p = true -> (length p <= length s)%nat.
Proof.
  induction s as [|d s IH]; cbn [Py.contains]; intros H;
    apply orb_true_iff in H as [H|H]; try discriminate;
    try (now apply startswith_length in H).
  apply IH in H. cbn [length]. lia.
Qed.

Lemma slice_wrapped inner :
  Py.slice (BG_OPEN ++ inner ++ BG_CLOSE) 13 (-14) = inner.
Proof.
  unfold Py.slice, Py.norm_index. rewrite !len_app.
  change (Py.len BG_OPEN) with 13. change (Py.len BG_CLOSE) with 14.
  pose proof (len_nonneg inner).
  rewrite (proj2 (Z.ltb_ge 13 0)), (proj2 (Z.ltb_lt (-14) 0)) by lia.
  replace (Z.to_nat (Z.min 13 (13 + (Py.len inner + 14)))) with (length BG_OPEN)
    by (change (length BG_OPEN) with 13%nat; lia).
  rewrite drop_app_length.
  replace (Z.to_nat _) with (length inner) by (unfold Py.len in *; lia).
  apply take_app_length.
Qed.

Lemma len_last_chars (s : str) n :
  0 < n -> Py.len (Py.slice_from s (- n)) = Z.min (Py.len s) n.
Proof.
  intros Hn. rewrite len_slice_from. unfold Py.norm_index.
  pose proof (len_nonneg s).
  rewrite (proj2 (Z.ltb_lt (- n) 0)) by lia. lia.
Qed.

Lemma len_wrapped_marked x :
  Py.len (BG_OPEN ++ (TRUNC_MARK ++ x) ++ BG_CLOSE) = 39 + Py.len x.
Proof.
  rewrite !len_app. change (Py.len BG_OPEN) with 13.
  change (Py.len BG_CLOSE) with 14. change (Py.len TRUNC_MARK) with 12. lia.
Qed.

(** On a wrapped background longer than the allowance, the second
    truncation returns the empty string or a wrapped background that is
    still longer than the allowance. *)
Lemma shrink_background_too_long ma bg :
  wrapped bg -> 0 < ma < Py.len bg ->
  shrink_background ma bg = []
  \/ (wrapped (shrink_background ma bg)
      /\ ma < Py.len (shrink_background ma bg)).
Proof.
  intros Hw Hma. pose proof (wrapped_labels bg Hw) as Hlab.
  destruct Hw as [inner ->]. unfold shrink_background.
  rewrite Hlab, slice_wrapped.
  assert (Py.len (BG_OPEN ++ inner ++ BG_CLOSE) = 27 + Py.len inner) as Hlen.
  { rewrite !len_app. change (Py.len BG_OPEN) with 13.
    change (Py.len BG_CLOSE) with 14. lia. }
  destruct (Py.contains inner TRUNC_MARK) eqn:Hin.
  - apply contains_length in Hin. change (length TRUNC_MARK) with 12%nat in Hin.
    destruct (Z.gtb_spec (ma - 30) 0) as [Hns|Hns]; right.
    + split; [eexists; reflexivity|].
      rewrite len_wrapped_marked, len_last_chars by lia.
      rewrite len_slice_from. unfold Py.norm_index.
      rewrite (proj2 (Z.ltb_ge 12 0)) by lia. unfold Py.len in *. lia.
    + split; [now exists inner | lia].
  - destruct (Z.gtb_spec (ma - 28) 0) as [Hns|Hns]; [right | now left].
    split; [eexists; reflexivity|].
    rewrite len_wrapped_marked, len_last_chars by lia. lia.
Qed.

Lemma build_background_wrapped p e all :
  (build_hierarchical_background p e all).1.1 <> [] ->
  wrapped (build_hierarchical_background p e all).1.1.
Proof.
  rewrite build_background_unfold. intros H.
  apply wrap_background_wrapped. intros Hj. apply H.
  now rewrite wrap_background_nil.
Qed.

(** X8. Whenever the background built for an entry is non-empty and
    leaves fewer than [min_content_size] characters of the target size,
    the second truncation does not bring it within the target: either
    the background is dropped altogether, or the one used still leaves
    fewer than [min_content_size] characters, and the width handed to
    the splitter is the floor itself. *)
Theorem second_truncation_never_fits (p : processor) (e : entry)
    (all : list entry) :
  let bg := (build_hierarchical_background p e all).1.1 in
  let b := (entry_budget p e all).1 in
  bg <> [] -> chunk_size_cfg p - Py.len bg < min_content_size ->
  (background b = []
   /\ available_chars b = Z.max (chunk_size_cfg p) min_content_size)
  \/ (wrapped (background b)
      /\ chunk_size_cfg p - Py.len (background b) < min_content_size
      /\ available_chars b = min_content_size).
Proof.
  intros bg b Hne Hless. subst b. rewrite entry_budget_unfold.
  pose proof (build_background_wrapped p e all Hne) as Hw. fold bg in Hw.
  subst bg. revert Hne Hless Hw.
  destruct (build_hierarchical_background p e all).1 as [bg wt]. cbn [fst].
  intros Hne Hless Hw. unfold allocate_budget.
  rewrite (proj2 (Z.ltb_lt _ _) Hless).
  assert (0 < Py.len bg) as Hpos.
  { pose proof (len_nonneg bg). destruct (Z.eq_dec (Py.len bg) 0) as [Hz|]; [|lia].
    now apply len_nil_iff in Hz. }
  rewrite (proj2 (Z.gtb_gt _ _)) by lia.
  unfold min_content_size in *.
  destruct (Z.gtb_spec (chunk_size_cfg p - 100) 0) as [Hma|Hma].
  - destruct (shrink_background_too_long (chunk_size_cfg p - 100) bg Hw
                ltac:(lia)) as [Hnil|[Hw' Hlong]].
    + left. rewrite Hnil. cbn [background available_chars].
      change (Py.len (@nil ascii)) with 0. split; [reflexivity | f_equal; lia].
    + right. cbn [background available_chars]. repeat split; [assumption | lia | lia].
  - left. cbn [background available_chars]. split; [reflexivity | f_equal; lia].
Qed.

Lemma second_truncation_never_fits_witness :
  let p := new_processor 200 200 80 in
  let a := Entry (repeat "a"%char 80) (Some (lit "Intro")) [] None in
  let e := Entry (lit "Some body text.") (Some (lit "Methods"))
             [lit "Intro"] None in
  let b := (entry_budget p e [a; e]).1 in
  (background b = []
   /\ available_chars b = Z.max (chunk_size_cfg p) min_content_size)
  \/ (wrapped (background b)
      /\ chunk_size_cfg p - Py.len (background b) < min_content_size
      /\ available_chars b = min_content_size).
Proof.
  intros p a e.
  exact (second_truncation_never_fits p e [a; e]
           ltac:(vm_compute; discriminate) ltac:(vm_compute; reflexivity)).
Defined.

End SecondStage.

(** ** Entries without text *)
Section Blank.

Lemma all_space_infix s t : infix_of s t -> all_space t -> all_space s.
Proof.
  intros [a [b ->]] H. apply all_space_app in H as [_ H].
  now apply all_space_app in H as [H _].
Qed.

Lemma split_loop_all_space fuel content avail ov : forall start chunks r,
  all_space content ->
  split_loop fuel content avail ov start chunks = Some r -> r = chunks.
Proof.
  induction fuel as [|fuel IH]; intros start chunks r Hall H;
    cbn [split_loop] in H; destruct (start <? Py.len content); try congruence.
  assert (Py.strip (Py.slice content start (cut_end content avail start)) = [])
    as Hs.
  { apply strip_nil_iff. eapply all_space_infix; [apply infix_of_slice | exact Hall]. }
  rewrite Hs in H. cbn [add_chunk] in H.
  destruct (_ >=? _); [congruence|]. now apply IH in H.
Qed.

(** X9. An entry whose content is empty or only whitespace: when the
    content is longer than the width it gives no chunk at all and uses no
    counter value; when it fits it gives exactly one chunk, whose content
    segment is the untrimmed content. *)
Theorem blank_entry_chunks (p : processor) (e : entry) (all : list entry)
    (f : str) :
  Py.strip (content e) = [] ->
  let b := (entry_budget p e all).1 in
  let out := create_chunks_from_entry p e all f in
  (available_chars b < Py.len (content e) ->
   out.1 = [] /\ global_chunk_counter out.2 = global_chunk_counter p)
  /\ (Py.len (content e) <= available_chars b ->
      map (fun c => content_size (metadata c)) out.1 = [Py.len (content e)]
      /\ global_chunk_counter out.2 = (global_chunk_counter p + 1)%N).
Proof.
  intros Hblank b out. apply strip_nil_iff in Hblank.
  pose proof (create_chunks_emits p e all f) as [_ Hctr]. fold out in Hctr.
  pose proof (create_chunks_assembled p e all f) as Hasm. cbn zeta in Hasm.
  fold b out in Hasm. set (q := (entry_budget p e all).2) in *.
  split.
  - intros Hlong.
    assert (split_content_with_overlap q (content e) (available_chars b) = [])
      as Hnil.
    { unfold split_content_with_overlap. rewrite (proj2 (Z.leb_gt _ _) Hlong).
      destruct (split_loop _ _ _ _ _ _) as [r|] eqn:Hr; [|reflexivity].
      cbn [default]. now apply split_loop_all_space in Hr. }
    rewrite Hnil in Hasm. apply Forall2_nil_inv_l in Hasm.
    rewrite Hasm in *. split; [reflexivity|]. rewrite Hctr. cbn. lia.
  - intros Hfit. pose proof (assembled_content_sizes _ _ _ Hasm) as Hsz.
    unfold split_content_with_overlap in Hsz.
    rewrite (proj2 (Z.leb_le _ _) Hfit) in Hsz. split; [exact Hsz|].
    rewrite Hctr. apply (f_equal (@length Z)) in Hsz.
    rewrite length_map in Hsz. cbn in Hsz. rewrite Hsz. reflexivity.
Qed.

Lemma blank_entry_chunks_witness :
  let p := new_processor 100 0 40 in
  let e := Entry (repeat " "%char 101) (Some (lit "Blank")) [] None in
  (create_chunks_from_entry p e [e] (lit "doc.json")).1 = [].
Proof.
  intros p e.
  exact (proj1 (proj1 (blank_entry_chunks p e [e] (lit "doc.json")
                         ltac:(vm_compute; reflexivity))
                 ltac:(vm_compute; reflexivity))).
Defined.

End Blank.

(** ** Labels of the chunks of an entry *)
Section Labels.

Lemma assemble_chunks_labels segs : forall p b f t fp i k c,
  (assemble_chunks p b f t fp i segs).1 !! k = Some c ->
  chunk_id (metadata c)
  = chunk_id_of (global_chunk_counter p + 1 + N.of_nat k) f t (i + k)
  /\ source_file (metadata c) = f
  /\ meta_full_path (metadata c) = fp.
Proof.
  induction segs as [|seg segs IH]; intros p b f t fp i k c H;
    [discriminate|].
  cbn [assemble_chunks] in H. unfold generate_chunk_id in H.
  specialize (IH (set_counter p (global_chunk_counter p + 1)) b f t fp (S i)).
  destruct (assemble_chunks _ b f t fp (S i) segs) as [cs p2].
  cbn [fst] in *. destruct k as [|k].
  - cbn [lookup list_lookup] in H. injection H as <-.
    cbn [metadata chunk_id source_file meta_full_path].
    replace (global_chunk_counter p + 1 + N.of_nat 0)%N
      with (global_chunk_counter p + 1)%N by lia.
    replace (i + 0)%nat with i by lia. repeat split.
  - cbn [lookup list_lookup] in H. destruct (IH k c H) as (Hid & Hs & Hf).
    repeat split; try assumption. rewrite Hid.
    cbn [global_chunk_counter set_counter].
    replace (global_chunk_counter p + 1 + 1 + N.of_nat k)%N
      with (global_chunk_counter p + 1 + N.of_nat (S k))%N by lia.
    replace (S i + k)%nat with (i + S k)%nat by lia. reflexivity.
Qed.

(** X10. The k-th chunk of an entry (counting from 0) carries the
    counter value [counter + 1 + k], the stem of the source file name,
    the sanitised title of the entry (["Unknown"] when the entry has
    none) and the index [k]: indexes count the chunks emitted, without
    gaps for dropped slices. Its [source_file] is the file name given,
    and its [full_path] is the entry's, or the title when there is
    none. *)
Theorem chunk_labels (p : processor) (e : entry) (all : list entry) (f : str)
    (k : nat) (c : chunk) :
  (create_chunks_from_entry p e all f).1 !! k = Some c ->
  chunk_id (metadata c)
  = chunk_id_of (global_chunk_counter p + 1 + N.of_nat k) f
      (default (lit "Unknown") (title e)) k
  /\ source_file (metadata c) = f
  /\ meta_full_path (metadata c)
     = default (default (lit "Unknown") (title e)) (full_path e).
Proof.
  unfold create_chunks_from_entry.
  pose proof (entry_budget_counter p e all) as Hctr.
  destruct (entry_budget p e all) as [b q]. cbn [snd] in Hctr.
  intros H. apply assemble_chunks_labels in H. now rewrite Hctr in H.
Qed.

Lemma chunk_labels_witness :
  let p := new_processor 300 20 120 in
  let e := Entry (repeat "x"%char 310) None [] None in
  exists c,
    (create_chunks_from_entry p e [e] (lit "doc.json")).1 !! 1%nat = Some c
    /\ chunk_id (metadata c) = lit "chunk_000002_doc_Unknown_1"
    /\ meta_full_path (metadata c) = lit "Unknown".
Proof.
  intros p e. eexists. split; [vm_compute; reflexivity|].
  pose proof (chunk_labels p e [e] (lit "doc.json") 1 _
                ltac:(vm_compute; reflexivity)) as (H1 & _ & H3).
  split; [exact H1 | exact H3].
Defined.

End Labels.

(** ** The statistics of a document *)
Section Statistics.

Lemma py_sum_from l : forall a, fold_left Z.add l a = a + py_sum l.
Proof.
  unfold py_sum. induction l as [|x l IH]; intros a; cbn [fold_left]; [lia|].
  rewrite IH, (IH (0 + x)). lia.
Qed.

Lemma py_sum_cons x l : py_sum (x :: l) = x + py_sum l.
Proof. unfold py_sum at 1. cbn [fold_left]. rewrite py_sum_from. lia. Qed.

Lemma py_sum_app l k : py_sum (l ++ k) = py_sum l + py_sum k.
Proof.
  induction l as [|x l IH]; [reflexivity|].
  cbn [app]. rewrite !py_sum_cons, IH. lia.
Qed.

Lemma accumulate_entries_spec todo : forall p all f chunks0 chars0 n0,
  accumulate_entries p todo all f (chunks0, chars0, n0)
  = ((chunks0 ++ (process_entries p todo all f).1,
      chars0 + py_sum (map (fun e => Py.len (content e)) todo),
      n0 + Py.len (process_entries p todo all f).1),
     (process_entries p todo all f).2).
Proof.
  induction todo as [|e todo IH]; intros p all f chunks0 chars0 n0.
  - cbn. rewrite app_nil_r. do 2 f_equal; [f_equal|]; unfold Py.len; cbn; lia.
  - cbn [accumulate_entries process_entries map].
    destruct (create_chunks_from_entry p e all f) as [cs p1].
    rewrite IH. destruct (process_entries p1 todo all f) as [more p2].
    cbn [fst snd]. rewrite py_sum_cons, len_app, <- app_assoc.
    do 2 f_equal; [f_equal|]; lia.
Qed.

Lemma chunk_size_is_length p e all f :
  Forall (fun c => chunk_size (metadata c) = Py.len (chunk_content c))
         (create_chunks_from_entry p e all f).1.
Proof.
  pose proof (create_chunks_assembled p e all f) as H. cbn zeta in H.
  apply Forall2_Forall_r in H. eapply Forall_impl; [exact H|].
  intros c [seg [_ [_ [Hs _]]]]. exact Hs.
Qed.

Lemma process_entries_sizes todo : forall p all f,
  Forall (fun c => chunk_size (metadata c) = Py.len (chunk_content c))
         (process_entries p todo all f).1.
Proof.
  induction todo as [|e todo IH]; intros p all f; [constructor|].
  cbn [process_entries].
  pose proof (chunk_size_is_length p e all f) as H1.
  destruct (create_chunks_from_entry p e all f) as [cs p1].
  specialize (IH p1 all f).
  destruct (process_entries p1 todo all f) as [more p2].
  cbn [fst] in *. apply Forall_app. now split.
Qed.

(** X11. The statistics [process_json_file] returns agree with the
    chunks it writes: the chunks are those of the entries in order,
    [total_chunks] is their number and the growth of the identifier
    counter, [chunked_total_chars] is the sum of their recorded
    [chunk_size], [original_entries] and [original_total_chars] count
    the entries and the characters of their contents. *)
Theorem statistics_agree (p : processor) (input_file : str)
    (entries : list entry) :
  let r := process_json_file_stats p input_file entries in
  let st := r.1.1 in
  let all_chunks := r.1.2 in
  all_chunks = (process_json_file p input_file entries).1
  /\ r.2 = (process_json_file p input_file entries).2
  /\ total_chunks st = Py.len all_chunks
  /\ Z.of_N (global_chunk_counter r.2)
     = Z.of_N (global_chunk_counter p) + total_chunks st
  /\ chunked_total_chars st
     = py_sum (map (fun c => chunk_size (metadata c)) all_chunks)
  /\ original_entries st = Py.len entries
  /\ original_total_chars st
     = py_sum (map (fun e => Py.len (content e)) entries).
Proof.
  unfold process_json_file_stats, process_json_file.
  rewrite accumulate_entries_spec.
  pose proof (process_entries_emits entries (set_cache p ∅) entries
                (basename input_file)) as [_ Hctr].
  pose proof (process_entries_sizes entries (set_cache p ∅) entries
                (basename input_file)) as Hsz.
  destruct (process_entries (set_cache p ∅) entries entries
              (basename input_file)) as [chunks q].
  cbn [fst snd app total_chunks chunked_total_chars original_entries
       original_total_chars] in *.
  repeat split; try lia.
  - rewrite Hctr. cbn [global_chunk_counter set_cache]. unfold Py.len. lia.
  - f_equal. apply Forall_fmap_ext_1. eapply Forall_impl; [exact Hsz|].
    intros c Hc. now rewrite Hc.
Qed.

End Statistics.


(** ** [build_hierarchy] *)
Section BuildHierarchy.

Lemma build_loop_lookup rest : forall stack i en,
  Md.build_loop stack rest !! i = Some en ->
  exists s, rest !! i = Some s
            /\ en = (Md.build_entry (stack_after stack (take i rest)) s).2.
Proof.
  induction rest as [|s rest IH]; intros stack i en H; [discriminate|].
  cbn [Md.build_loop] in H.
  destruct (Md.build_entry stack s) as [stack1 e1] eqn:He.
  destruct i as [|i].
  - cbn in H. injection H as <-. exists s. split; [reflexivity|].
    change (stack_after stack (take 0 (s :: rest))) with stack.
    now rewrite He.
  - cbn [lookup list_lookup] in H. apply IH in H as [s' [Hs' ->]].
    exists s'. split; [exact Hs'|].
    change (stack_after stack (take (S i) (s :: rest)))
      with (stack_after (Md.build_entry stack s).1 (take i rest)).
    now rewrite He.
Qed.

Lemma build_loop_length rest : forall stack,
  length (Md.build_loop stack rest) = length rest.
Proof.
  induction rest as [|s rest IH]; intros stack; [reflexivity|].
  cbn [Md.build_loop]. destruct (Md.build_entry stack s). cbn. now rewrite IH.
Qed.

Lemma head_pop_while lvl stack :
  head (Md.pop_while lvl stack) = nearest_below lvl stack.
Proof.
  unfold nearest_below. induction stack as [|h stack IH]; [reflexivity|].
  cbn [Md.pop_while List.find].
  destruct (Z.geb_spec (Md.level h) lvl) as [Hge|Hlt].
  - rewrite (proj2 (Z.ltb_ge _ _)) by lia. exact IH.
  - now rewrite (proj2 (Z.ltb_lt _ _)) by lia.
Qed.

Lemma nearest_pop_while lvl L stack :
  L <= lvl ->
  nearest_below L (Md.pop_while lvl stack) = nearest_below L stack.
Proof.
  intros HL. unfold nearest_below.
  induction stack as [|h stack IH]; [reflexivity|].
  cbn [Md.pop_while]. destruct (Z.geb_spec (Md.level h) lvl) as [Hge|Hlt];
    [|reflexivity].
  cbn [List.find]. now rewrite (proj2 (Z.ltb_ge _ _)) by lia.
Qed.

(** The stack answers "the most recent heading below a level" like the
    whole history does. *)
Lemma stack_after_nearest done : forall stack seen,
  (forall L, nearest_below L stack = nearest_below L (rev seen)) ->
  forall L, nearest_below L (stack_after stack done)
            = nearest_below L (rev (seen ++ map Md.heading_of done)).
Proof.
  induction done as [|s done IH]; intros stack seen Hinv L.
  - change (stack_after stack []) with stack. cbn [map].
    rewrite app_nil_r. apply Hinv.
  - change (stack_after stack (s :: done))
      with (stack_after (Md.build_entry stack s).1 done).
    cbn [map].
    replace (seen ++ Md.heading_of s :: map Md.heading_of done)
      with ((seen ++ [Md.heading_of s]) ++ map Md.heading_of done)
      by now rewrite <- app_assoc.
    apply IH. intros L'. rewrite rev_app_distr. cbn [rev app Md.build_entry fst].
    unfold nearest_below. cbn [List.find].
    destruct (Z.ltb_spec (Md.level (Md.heading_of s)) L'); [reflexivity|].
    fold (nearest_below L' (Md.pop_while (Md.level (Md.heading_of s)) stack)).
    rewrite nearest_pop_while by lia. apply Hinv.
Qed.

Lemma last_rev_head {A} (l : list A) : last (rev l) = head l.
Proof.
  destruct l as [|x l]; [reflexivity|]. cbn [rev]. now rewrite last_snoc.
Qed.

(** X12. The immediate parent [build_hierarchy] gives an entry is the
    most recent preceding section whose heading level is smaller than
    the entry's; the entry has no ancestors exactly when no preceding
    section has a smaller level. *)
Theorem parent_is_nearest_shallower (sections : list Md.section) (i : nat)
    (en : Md.json_entry) (s : Md.section) :
  Md.build_hierarchy sections !! i = Some en ->
  sections !! i = Some s ->
  Md.entry_content en = Md.content s
  /\ Md.entry_title en = Md.title (Md.heading_of s)
  /\ last (Md.hierarchy en)
     = Md.title <$>
         nearest_below (Md.level (Md.heading_of s))
           (rev (map Md.heading_of (take i sections))).
Proof.
  intros Hen Hs. unfold Md.build_hierarchy in Hen.
  apply build_loop_lookup in Hen as [s' [Hs' ->]].
  rewrite Hs in Hs'. injection Hs' as <-.
  cbn [Md.build_entry snd Md.entry_content Md.entry_title Md.hierarchy tail].
  split; [reflexivity|]. split; [reflexivity|].
  rewrite last_rev_head.
  rewrite <- (stack_after_nearest (take i sections) [] [] (fun _ => eq_refl)).
  rewrite <- head_pop_while.
  now destruct (Md.pop_while _ _).
Qed.

Lemma parent_is_nearest_shallower_witness :
  let h l t := Md.Heading l (lit t) 0 (lit "standard") in
  let sections :=
    [ Md.MkSection (h 1 "Book") (lit "b");
      Md.MkSection (h 2 "Part") (lit "p");
      Md.MkSection (h 3 "Detail") (lit "d");
      Md.MkSection (h 2 "Other") (lit "o");
      Md.MkSection (h 3 "Leaf") (lit "l") ] in
  exists en,
    Md.build_hierarchy sections !! 4%nat = Some en
    /\ last (Md.hierarchy en) = Some (lit "Other").
Proof.
  intros h sections. eexists. split; [vm_compute; reflexivity|].
  exact (proj2 (proj2 (parent_is_nearest_shallower sections 4 _
                         (Md.MkSection (h 3 "Leaf") (lit "l"))
                         ltac:(vm_compute; reflexivity) eq_refl))).
Defined.

Lemma pop_while_inv lvl stack :
  decreasing stack ->
  decreasing (Md.pop_while lvl stack)
  /\ Forall (fun h => Md.level h < lvl) (Md.pop_while lvl stack)
  /\ (forall h, h ∈ Md.pop_while lvl stack -> h ∈ stack).
Proof.
  unfold decreasing. induction stack as [|x stack IH]; intros Hd.
  - repeat split; [constructor | constructor | auto].
  - cbn [Md.pop_while]. apply StronglySorted_inv in Hd as [Hd Hx].
    destruct (Z.geb_spec (Md.level x) lvl) as [Hge|Hlt].
    + destruct (IH Hd) as (H1 & H2 & H3). repeat split; try assumption.
      intros h Hh. right. now apply H3.
    + repeat split; [now constructor | | auto].
      constructor; [lia|]. eapply Forall_impl; [exact Hx|].
      intros h Hh. cbn beta in Hh. lia.
Qed.

Lemma build_entry_stack_inv stack s (seen : list Md.heading) :
  decreasing stack -> (forall h, h ∈ stack -> h ∈ seen) ->
  decreasing (Md.build_entry stack s).1
  /\ (forall h, h ∈ (Md.build_entry stack s).1 -> h ∈ seen ++ [Md.heading_of s]).
Proof.
  intros Hd Hin. cbn [Md.build_entry fst].
  destruct (pop_while_inv (Md.level (Md.heading_of s)) stack Hd) as (H1 & H2 & H3).
  split.
  - constructor; [exact H1 | exact H2].
  - intros h Hh. apply elem_of_app. apply elem_of_cons in Hh as [->|Hh].
    + right. left.
    + left. auto.
Qed.

Lemma stack_after_inv done : forall stack seen,
  decreasing stack -> (forall h, h ∈ stack -> h ∈ seen) ->
  decreasing (stack_after stack done)
  /\ (forall h, h ∈ stack_after stack done ->
                h ∈ seen ++ map Md.heading_of done).
Proof.
  induction done as [|s done IH]; intros stack seen Hd Hin.
  - change (stack_after stack []) with stack. cbn [map].
    rewrite app_nil_r. now split.
  - change (stack_after stack (s :: done))
      with (stack_after (Md.build_entry stack s).1 done).
    destruct (build_entry_stack_inv stack s seen Hd Hin) as [Hd' Hin'].
    destruct (IH _ _ Hd' Hin') as [H1 H2]. split; [exact H1|].
    intros h Hh. apply H2 in Hh. cbn [map].
    now rewrite <- app_assoc in Hh.
Qed.

Lemma elem_of_rev_1 {A} (x : A) l : x ∈ rev l -> x ∈ l.
Proof.
  intros H. apply list_elem_of_In. apply in_rev. now apply list_elem_of_In.
Qed.

Lemma StronglySorted_snoc {A} (R : A -> A -> Prop) l x :
  StronglySorted R l -> Forall (fun a => R a x) l ->
  StronglySorted R (l ++ [x]).
Proof.
  induction 1 as [|y l Hl IH Hy]; intros Hx; cbn [app].
  - repeat constructor.
  - apply Forall_cons_1 in Hx as [Hyx Hx]. constructor; [now apply IH|].
    apply Forall_app. split; [exact Hy | now repeat constructor].
Qed.

Lemma decreasing_rev_increasing l :
  decreasing l ->
  StronglySorted (fun a b => Md.level a < Md.level b) (rev l).
Proof.
  unfold decreasing. induction 1 as [|x l Hl IH Hx]; [constructor|].
  cbn [rev]. apply StronglySorted_snoc; [exact IH|].
  apply Forall_forall. intros a Ha. apply elem_of_rev_1 in Ha.
  rewrite Forall_forall in Hx. now apply Hx.
Qed.

Lemma increasing_levels_grow l : forall b,
  StronglySorted (fun x y => Md.level x < Md.level y) l ->
  Forall (fun h => b <= Md.level h) l ->
  forall k h, l !! k = Some h -> b + Z.of_nat k <= Md.level h.
Proof.
  induction l as [|x l IH]; intros b Hs Hb k h Hk; [discriminate|].
  apply StronglySorted_inv in Hs as [Hs Hx].
  apply Forall_cons_1 in Hb as [Hbx Hb].
  destruct k as [|k].
  - cbn in Hk. injection Hk as <-. lia.
  - cbn [lookup list_lookup] in Hk.
    specialize (IH (b + 1) Hs). 
    assert (Forall (fun h => b + 1 <= Md.level h) l) as Hb'.
    { eapply Forall_impl; [exact Hx|]. intros y Hy. cbn beta in Hy. lia. }
    specialize (IH Hb' k h Hk). lia.
Qed.

Lemma join_single_or_more sep (hier : list str) (t : str) :
  match hier with
  | [] => t
  | _ => Py.join sep (hier ++ [t])
  end = Py.join sep (hier ++ [t]).
Proof. now destruct hier. Qed.

(** X13. The hierarchy of an entry is a chain of headings of preceding
    sections, outermost first, whose levels strictly increase and stay
    below the entry's own level; so with heading levels from 1 up an
    entry of level [n] has at most [n - 1] ancestors. Its [full_path] is
    the ancestors and its own title joined by [" > "], and the output has
    one entry per section. *)
Theorem hierarchy_is_a_chain (sections : list Md.section) (i : nat)
    (en : Md.json_entry) (s : Md.section) :
  Md.build_hierarchy sections !! i = Some en ->
  sections !! i = Some s ->
  (exists hs,
      Md.hierarchy en = map Md.title hs
      /\ Forall (fun h => h ∈ map Md.heading_of (take i sections)) hs
      /\ StronglySorted (fun a b => Md.level a < Md.level b)
           (hs ++ [Md.heading_of s]))
  /\ (Forall (fun s' => 1 <= Md.level (Md.heading_of s')) sections ->
      Py.len (Md.hierarchy en) <= Md.level (Md.heading_of s) - 1)
  /\ Md.full_path en
     = Py.join (lit " > ") (Md.hierarchy en ++ [Md.entry_title en])
  /\ length (Md.build_hierarchy sections) = length sections.
Proof.
  intros Hen Hs. unfold Md.build_hierarchy in *.
  apply build_loop_lookup in Hen as [s' [Hs' ->]].
  rewrite Hs in Hs'. injection Hs' as <-.
  destruct (stack_after_inv (take i sections) [] []) as [Hd Hin];
    [constructor | intros h Hh; inversion Hh |].
  cbn [app] in Hin.
  set (stack := stack_after [] (take i sections)) in *.
  destruct (pop_while_inv (Md.level (Md.heading_of s)) stack Hd)
    as (Hp1 & Hp2 & Hp3).
  set (below := Md.pop_while (Md.level (Md.heading_of s)) stack) in *.
  assert (Md.hierarchy (Md.build_entry stack s).2 = map Md.title (rev below))
    as Hhier.
  { cbn [Md.build_entry snd Md.hierarchy tail]. now rewrite map_rev. }
  assert (StronglySorted (fun a b => Md.level a < Md.level b)
            (rev below ++ [Md.heading_of s])) as Hsorted.
  { apply StronglySorted_snoc; [now apply decreasing_rev_increasing|].
    apply Forall_forall. intros a Ha. apply elem_of_rev_1 in Ha.
    rewrite Forall_forall in Hp2. now apply Hp2. }
  split; [|split; [|split]].
  - exists (rev below). split; [exact Hhier|]. split; [|exact Hsorted].
    apply Forall_forall. intros h Hh. apply elem_of_rev_1 in Hh. auto.
  - intros Hlev. rewrite Hhier. unfold Py.len. rewrite length_map.
    assert (Forall (fun h => 1 <= Md.level h) (rev below ++ [Md.heading_of s]))
      as Hall.
    { rewrite Forall_forall in Hlev. apply Forall_forall. intros h Hh.
      assert (h ∈ map Md.heading_of sections) as Hmem.
      { apply elem_of_app in Hh as [Hh|Hh].
        - apply elem_of_rev_1 in Hh. apply Hp3, Hin in Hh.
          apply list_elem_of_fmap in Hh as [x [-> Hx]].
          apply list_elem_of_fmap. exists x. split; [reflexivity|].
          apply list_elem_of_lookup in Hx as [k Hk].
          apply lookup_take_Some in Hk as [Hk _].
          apply list_elem_of_lookup. eauto.
        - apply list_elem_of_singleton in Hh as ->.
          apply list_elem_of_fmap. exists s. split; [reflexivity|].
          apply list_elem_of_lookup. eauto. }
      apply list_elem_of_fmap in Hmem as [x [-> Hx]]. now apply Hlev. }
    pose proof (increasing_levels_grow _ 1 Hsorted Hall (length (rev below))
                  (Md.heading_of s)) as Hb.
    rewrite lookup_app_r, Nat.sub_diag in Hb by lia.
    specialize (Hb eq_refl). lia.
  - cbn [Md.build_entry snd Md.full_path Md.hierarchy Md.entry_title tail].
    apply join_single_or_more.
  - apply build_loop_length.
Qed.

Lemma hierarchy_is_a_chain_witness :
  let h l t := Md.Heading l (lit t) 0 (lit "standard") in
  let sections :=
    [ Md.MkSection (h 1 "Book") (lit "b");
      Md.MkSection (h 2 "Part") (lit "p");
      Md.MkSection (h 3 "Detail") (lit "d");
      Md.MkSection (h 2 "Other") (lit "o");
      Md.MkSection (h 3 "Leaf") (lit "l") ] in
  exists en,
    Md.build_hierarchy sections !! 4%nat = Some en
    /\ Md.full_path en
       = Py.join (lit " > ") (Md.hierarchy en ++ [Md.entry_title en]).
Proof.
  intros h sections. eexists. split; [vm_compute; reflexivity|].
  exact (proj1 (proj2 (proj2 (hierarchy_is_a_chain sections 4 _
                         (Md.MkSection (h 3 "Leaf") (lit "l"))
                         ltac:(vm_compute; reflexivity) eq_refl)))).
Defined.

Lemma hierarchy_from_earlier (sections : list Md.section) i en :
  Md.build_hierarchy sections !! i = Some en ->
  Forall (fun t => exists s', s' ∈ sections /\ Md.title (Md.heading_of s') = t)
         (Md.hierarchy en).
Proof.
  intros Hen. unfold Md.build_hierarchy in Hen.
  apply build_loop_lookup in Hen as [s [Hs ->]].
  destruct (stack_after_inv (take i sections) [] []) as [Hd Hin];
    [constructor | intros h Hh; inversion Hh |].
  cbn [app] in Hin.
  destruct (pop_while_inv (Md.level (Md.heading_of s))
              (stack_after [] (take i sections)) Hd) as (_ & _ & Hp3).
  cbn [Md.build_entry snd Md.hierarchy tail].
  apply Forall_forall. intros t Ht. apply elem_of_rev_1 in Ht.
  apply list_elem_of_fmap in Ht as [h [-> Hh]].
  apply Hp3, Hin in Hh. apply list_elem_of_fmap in Hh as [s' [-> Hs']].
  exists s'. split; [|reflexivity].
  apply list_elem_of_lookup in Hs' as [k Hk].
  apply lookup_take_Some in Hk as [Hk _]. apply list_elem_of_lookup. eauto.
Qed.

Lemma section_has_entry (sections : list Md.section) s' :
  s' ∈ sections ->
  exists e', e' ∈ document_of sections
             /\ title e' = Some (Md.title (Md.heading_of s')).
Proof.
  intros Hs'. apply list_elem_of_lookup in Hs' as [k Hk].
  assert (is_Some (Md.build_hierarchy sections !! k)) as [en Hen].
  { apply lookup_lt_is_Some. unfold Md.build_hierarchy.
    rewrite build_loop_length. now apply lookup_lt_Some in Hk. }
  exists (entry_of_json en). split.
  - unfold document_of. apply list_elem_of_fmap. exists en.
    split; [reflexivity|]. apply list_elem_of_lookup. eauto.
  - unfold Md.build_hierarchy in Hen.
    apply build_loop_lookup in Hen as [s [Hs ->]].
    rewrite Hk in Hs. injection Hs as <-. reflexivity.
Qed.

Lemma find_entry_is_Some t (doc : list entry) :
  (exists e', e' ∈ doc /\ title e' = Some t) -> is_Some (find_entry t doc).
Proof.
  intros [e' [Hin Ht]]. unfold find_entry.
  destruct (List.find _ doc) as [x|] eqn:Hf; [eauto|].
  apply list_elem_of_In in Hin.
  pose proof (find_none _ _ Hf e' Hin) as Hnone. cbn beta in Hnone.
  rewrite bool_decide_eq_true_2 in Hnone by assumption. discriminate.
Qed.

Lemma length_omap_all {A B} (g : A -> option B) l :
  Forall (fun x => is_Some (g x)) l -> length (omap g l) = length l.
Proof.
  induction 1 as [|x l [y Hy] _ IH]; [reflexivity|].
  cbn [omap list_omap]. rewrite Hy. cbn. now rewrite IH.
Qed.

(** X14. On a document written by [build_hierarchy] the engine never
    meets a missing ancestor: every ancestor title of every entry
    resolves to an entry of the document, so, with a cache built on this
    document, one body is collected per ancestor. *)
Theorem ancestors_always_resolve (sections : list Md.section) (p : processor)
    (e : entry) :
  let doc := document_of sections in
  cache_consistent doc (hierarchy_cache p) ->
  e ∈ doc ->
  Forall (fun t => is_Some (find_entry t doc)) (hierarchy e)
  /\ length (collected_parts p e doc) = length (hierarchy e).
Proof.
  intros doc Hc He.
  assert (Forall (fun t => is_Some (find_entry t doc)) (hierarchy e)) as Hall.
  { unfold doc, document_of in He.
    apply list_elem_of_fmap in He as [en [-> Hen]].
    apply list_elem_of_lookup in Hen as [i Hi].
    eapply Forall_impl; [exact (hierarchy_from_earlier sections i en Hi)|].
    intros t [s' [Hs' <-]]. apply find_entry_is_Some.
    now apply section_has_entry. }
  split; [exact Hall|].
  destruct (collect_fold_consistent doc (hierarchy e) (hierarchy_cache p) [] Hc)
    as [_ Hp].
  unfold collected_parts, collect_background. rewrite Hp. cbn [app].
  apply length_omap_all. eapply Forall_impl; [exact Hall|].
  intros t [x Hx]. unfold resolve. rewrite Hx. eauto.
Qed.

Lemma ancestors_always_resolve_witness :
  let h l t := Md.Heading l (lit t) 0 (lit "standard") in
  let sections :=
    [ Md.MkSection (h 1 "Book") (lit "b");
      Md.MkSection (h 2 "Part") (lit "p");
      Md.MkSection (h 3 "Detail") (lit "d") ] in
  let e := Entry (lit "d") (Some (lit "Detail")) [lit "Book"; lit "Part"]
             (Some (lit "Book > Part > Detail")) in
  length (collected_parts (new_processor 5000 200 2000) e (document_of sections))
  = length (hierarchy e).
Proof.
  intros h sections e.
  refine (proj2 (ancestors_always_resolve sections
                   (new_processor 5000 200 2000) e
                   (cache_consistent_empty _) _)).
  vm_compute. right. right. left.
Defined.

End BuildHierarchy.

(** ** [filter_new_chunks] and [add_chunks] *)
Section NewChunks.

(** The chunks kept extend the accumulator, and each chunk kept at
    position [j] was tested with the default identifier of position [j]. *)
Lemma filter_loop_spec existing chunks : forall acc,
  exists kept,
    Db.filter_loop existing chunks acc = acc ++ kept
    /\ (forall k c, kept !! k = Some c ->
          Db.id_or_default c (length acc + k) ∉ existing)
    /\ sublist kept chunks.
Proof.
  induction chunks as [|c chunks IH]; intros acc.
  - exists []. cbn. rewrite app_nil_r. repeat split; [|constructor].
    intros k c' H. discriminate.
  - cbn [Db.filter_loop]. destruct (decide _) as [Hnew|Hold].
    + destruct (IH (acc ++ [c])) as (kept & Heq & Hids & Hsub).
      exists (c :: kept). rewrite Heq, <- app_assoc. split; [reflexivity|].
      split; [|now constructor].
      intros k c' Hk. destruct k as [|k].
      * cbn in Hk. injection Hk as <-. now rewrite Nat.add_0_r.
      * cbn [lookup list_lookup] in Hk. specialize (Hids k c' Hk).
        rewrite length_app in Hids. cbn [length] in Hids.
        now replace (length acc + S k)%nat with (length acc + 1 + k)%nat by lia.
    + destruct (IH acc) as (kept & Heq & Hids & Hsub).
      exists kept. repeat split; try assumption. now constructor.
Qed.

Lemma collect_request_spec chunks : forall r,
  length (Db.documents r) = length (Db.ids r) ->
  Db.documents (Db.collect_request chunks r)
  = Db.documents r ++ map (fun c => default [] (Db.content c)) chunks
  /\ Db.metadatas (Db.collect_request chunks r)
     = Db.metadatas r ++ map Db.metadata_of chunks
  /\ Db.ids (Db.collect_request chunks r)
     = Db.ids r
       ++ imap (fun k c => Db.id_or_default c (length (Db.ids r) + k)) chunks.
Proof.
  induction chunks as [|c chunks IH]; intros r Hlen.
  - cbn. now rewrite !app_nil_r.
  - cbn [Db.collect_request].
    set (r' := Db.AddRequest _ _ _).
    destruct (IH r') as (H1 & H2 & H3).
    { subst r'. cbn. rewrite !length_app. cbn. lia. }
    rewrite H1, H2, H3. subst r'. cbn [Db.documents Db.metadatas Db.ids map imap].
    rewrite <- !app_assoc. cbn [app]. repeat split. do 2 f_equal.
    + now rewrite Hlen, Nat.add_0_r.
    + apply imap_ext. intros k x _. cbn. rewrite length_app. cbn [length].
      f_equal. lia.
Qed.

Lemma add_chunks_request existing chunks req :
  Db.add_chunks existing chunks false = Some req ->
  let kept := Db.filter_new_chunks existing chunks in
  Db.documents req = map (fun c => default [] (Db.content c)) kept
  /\ Db.metadatas req = map Db.metadata_of kept
  /\ Db.ids req = imap (fun k c => Db.id_or_default c k) kept.
Proof.
  intros Hreq kept. unfold Db.add_chunks in Hreq. cbn zeta in Hreq.
  fold kept in Hreq.
  assert (req = Db.collect_request kept (Db.AddRequest [] [] [])) as ->.
  { destruct kept; [discriminate | now injection Hreq]. }
  destruct (collect_request_spec kept (Db.AddRequest [] [] []) eq_refl)
    as (H1 & H2 & H3).
  rewrite H1, H2, H3. repeat split.
Qed.

(** X15. Without [force_recompute], the request [add_chunks] sends to
    the collection holds one document, one metadata dictionary and one
    identifier per chunk kept by [filter_new_chunks], in order, and no
    identifier of it is already in the collection - also for a chunk
    without [chunk_id], whose default identifier is computed the same way
    when filtering and when adding. Nothing is sent when no chunk is
    kept. *)
Theorem add_chunks_sends_only_new (existing : gset str)
    (chunks : list Db.chunk) :
  let kept := Db.filter_new_chunks existing chunks in
  sublist kept chunks
  /\ (kept = [] -> Db.add_chunks existing chunks false = None)
  /\ (forall req, Db.add_chunks existing chunks false = Some req ->
        Db.documents req = map (fun c => default [] (Db.content c)) kept
        /\ Db.metadatas req = map Db.metadata_of kept
        /\ Db.ids req = imap (fun k c => Db.id_or_default c k) kept
        /\ Forall (fun i => i ∉ existing) (Db.ids req)).
Proof.
  intros kept.
  destruct (filter_loop_spec existing chunks []) as (kept' & Heq & Hids & Hsub).
  cbn [app length Nat.add] in Heq, Hids.
  assert (kept = kept') as Hk by exact Heq.
  split; [now rewrite Hk|]. split.
  - intros Hnil. unfold Db.add_chunks. fold kept. now rewrite Hnil.
  - intros req Hreq. destruct (add_chunks_request _ _ _ Hreq) as (H1 & H2 & H3).
    fold kept in H1, H2, H3. repeat split; try assumption.
    rewrite H3, Hk. apply Forall_forall. intros i Hi.
    apply list_elem_of_lookup in Hi as [k Hi].
    rewrite list_lookup_imap in Hi.
    destruct (kept' !! k) as [c|] eqn:Hc; [|discriminate].
    cbn in Hi. injection Hi as <-. exact (Hids k c Hc).
Qed.

Lemma id_or_default_own c n : has_id c -> Db.id_or_default c n = own_id c.
Proof.
  unfold has_id, Db.id_or_default, own_id. now intros [i ->].
Qed.

Lemma filter_loop_with_ids existing chunks : forall acc,
  Forall has_id chunks ->
  Db.filter_loop existing chunks acc
  = acc ++ filter (fun c => own_id c ∉ existing) chunks.
Proof.
  induction chunks as [|c chunks IH]; intros acc Hall.
  - cbn. now rewrite app_nil_r.
  - apply Forall_cons_1 in Hall as [Hc Hall]. cbn [Db.filter_loop].
    rewrite (id_or_default_own c _ Hc), filter_cons.
    destruct (decide _); rewrite IH by assumption;
      [now rewrite <- app_assoc | reflexivity].
Qed.

Lemma imap_own_ids (l : list Db.chunk) : forall n,
  Forall has_id l ->
  imap (fun k c => Db.id_or_default c (n + k)) l = map own_id l.
Proof.
  induction l as [|c l IH]; intros n Hall; [reflexivity|].
  apply Forall_cons_1 in Hall as [Hc Hall]. cbn [imap map].
  f_equal; [now apply id_or_default_own|].
  rewrite <- (IH (S n) Hall). apply imap_ext. intros k x _. cbn.
  f_equal. lia.
Qed.

Lemma filter_none {A} (P : A -> Prop) `{forall x, Decision (P x)} (l : list A) :
  Forall (fun x => ~ P x) l -> filter P l = [].
Proof.
  induction 1 as [|x l Hx _ IH]; [reflexivity|].
  rewrite filter_cons. now destruct (decide (P x)).
Qed.

(** X16. When every chunk carries its [chunk_id], [filter_new_chunks]
    keeps exactly the chunks whose identifier is not in the collection,
    and once the identifiers of a request are in the collection the same
    chunks give nothing more to add: a second run embeds nothing. *)
Theorem add_chunks_is_idempotent (existing : gset str)
    (chunks : list Db.chunk) :
  Forall has_id chunks ->
  Db.filter_new_chunks existing chunks
  = filter (fun c => own_id c ∉ existing) chunks
  /\ (forall req, Db.add_chunks existing chunks false = Some req ->
        Db.ids req = map own_id (Db.filter_new_chunks existing chunks)
        /\ Db.add_chunks (existing ∪ list_to_set (Db.ids req)) chunks false
           = None).
Proof.
  intros Hall.
  assert (forall ex, Db.filter_new_chunks ex chunks
                     = filter (fun c => own_id c ∉ ex) chunks) as Hf.
  { intros ex. unfold Db.filter_new_chunks.
    now rewrite filter_loop_with_ids. }
  split; [apply Hf|]. intros req Hreq.
  destruct (add_chunks_request _ _ _ Hreq) as (_ & _ & Hids).
  assert (Db.ids req = map own_id (Db.filter_new_chunks existing chunks)) as Hown.
  { rewrite Hids. apply (imap_own_ids _ 0). rewrite Hf.
    apply Forall_forall. intros c Hc. apply list_elem_of_filter in Hc as [_ Hc].
    rewrite Forall_forall in Hall. now apply Hall. }
  split; [exact Hown|].
  unfold Db.add_chunks. rewrite Hf, filter_none; [reflexivity|].
  apply Forall_forall. intros c Hc Hnew. apply Hnew.
  destruct (decide (own_id c ∈ existing)) as [Hin|Hout];
    [now apply elem_of_union_l|].
  apply elem_of_union_r, elem_of_list_to_set. rewrite Hown, Hf.
  apply list_elem_of_fmap. exists c. split; [reflexivity|].
  now apply list_elem_of_filter.
Qed.

Lemma add_chunks_is_idempotent_witness :
  let c i := Db.Chunk (Some (lit "text")) (Some (Db.Metadata (Some (lit i)) [])) in
  Db.filter_new_chunks {[ lit "a" ]} [c "a"; c "b"]
  = filter (fun x => own_id x ∉ ({[ lit "a" ]} : gset str)) [c "a"; c "b"].
Proof.
  intros c.
  refine (proj1 (add_chunks_is_idempotent {[ lit "a" ]} [c "a"; c "b"] _)).
  repeat constructor; eexists; reflexivity.
Defined.

(** Without identifiers the second run is not empty: the default
    identifier of a chunk depends on how many chunks were kept before
    it. *)
Example add_chunks_defaults_shift :
  let x := Db.Chunk (Some (lit "x")) (Some (Db.Metadata (Some (lit "a")) [])) in
  let y := Db.Chunk (Some (lit "y")) None in
  Db.ids <$> Db.add_chunks ∅ [x; y] false = Some [lit "a"; lit "chunk_1"]
  /\ Db.ids <$> Db.add_chunks {[ lit "a"; lit "chunk_1" ]} [x; y] false
     = Some [lit "chunk_0"].
Proof. vm_compute. split; reflexivity. Qed.

Lemma emits_NoDup p chunks p' : emits p chunks p' -> NoDup (map id_of chunks).
Proof.
  intros [Hm _]. apply (NoDup_fmap_1 read_counter).
  change (fmap ?g ?l) with (map g l). rewrite map_map, Hm.
  apply counters_from_NoDup.
Qed.

Lemma loaded_has_id c : has_id (loaded c) /\ own_id (loaded c) = id_of c.
Proof. split; [eexists|]; reflexivity. Qed.

(** X17. The chunks one engine instance wrote over any sequence of
    documents, loaded back and handed to [add_chunks]: the identifiers
    sent to the collection are pairwise distinct and none of them is in
    the collection already. *)
Theorem one_run_adds_distinct_ids (p : processor)
    (docs : list (str * list entry)) (existing : gset str)
    (req : Db.add_request) :
  let written := concat (process_all_json_files p docs).1 in
  Db.add_chunks existing (map loaded written) false = Some req ->
  NoDup (Db.ids req)
  /\ Forall (fun i => i ∉ existing) (Db.ids req)
  /\ Db.ids req = filter (fun i => i ∉ existing) (map id_of written).
Proof.
  intros written Hreq.
  assert (Forall has_id (map loaded written)) as Hall.
  { apply List.Forall_map. apply Forall_forall. intros c _.
    apply loaded_has_id. }
  destruct (add_chunks_request _ _ _ Hreq) as (_ & _ & Hids).
  rewrite (imap_own_ids _ 0) in Hids.
  2:{ unfold Db.filter_new_chunks. rewrite filter_loop_with_ids by assumption.
      apply Forall_forall. intros c Hc. apply list_elem_of_filter in Hc as [_ Hc].
      rewrite Forall_forall in Hall. now apply Hall. }
  unfold Db.filter_new_chunks in Hids.
  rewrite filter_loop_with_ids in Hids by assumption. cbn [app] in Hids.
  assert (Db.ids req = filter (fun i => i ∉ existing) (map id_of written))
    as Heq.
  { rewrite Hids. clear. induction written as [|c l IH]; [reflexivity|].
    cbn [map]. rewrite !filter_cons.
    change (own_id (loaded c)) with (id_of c).
    destruct (decide (id_of c ∉ existing)); cbn [map]; now rewrite IH. }
  split; [|split; [|exact Heq]].
  - rewrite Heq. eapply sublist_NoDup; [|apply sublist_filter].
    eapply emits_NoDup. apply process_all_json_files_emits.
  - rewrite Heq. apply Forall_forall. intros i Hi.
    now apply list_elem_of_filter in Hi as [Hi _].
Qed.

Lemma one_run_adds_distinct_ids_witness :
  let p := new_processor 300 20 120 in
  let e := Entry (repeat "x"%char 310) (Some (lit "T")) [] None in
  let docs := [(lit "doc.json", [e])] in
  exists req,
    Db.add_chunks ({[ lit "chunk_000001_doc_T_0" ]} : gset str)
      (map loaded (concat (process_all_json_files p docs).1)) false = Some req
    /\ NoDup (Db.ids req).
Proof.
  intros p e docs.
  destruct (Db.add_chunks ({[ lit "chunk_000001_doc_T_0" ]} : gset str)
              (map loaded (concat (process_all_json_files p docs).1)) false)
    as [req|] eqn:Hreq; [|vm_compute in Hreq; discriminate].
  exists req. split; [reflexivity|].
  exact (proj1 (one_run_adds_distinct_ids p docs _ req Hreq)).
Defined.

End NewChunks.
